(** * LinkedIn outreach automation: pacing, circuit breaker, recipients, templates

    A shallow embedding of the parts of the repository that carry a contract:

    - [utils/throttling.py]   ([Throttler]): randomized delays and backoff;
    - [utils/placeholders.py] ([PlaceholderReplacer]): template filling;
    - [core/models.py]        ([Recipient]): construction-time validation;
    - [utils/csv_handler.py]  ([CSVHandler]): bounded loading of recipients;
    - [core/messenger.py]     ([MessageSender.send_message]);
    - [main.py]               ([OutreachOrchestrator._send_messages]).

    Conventions.  Python [int] is [Z].  Python [float] is idealised as exact
    rational arithmetic ([Q]); a call of [random.random()] is an explicit
    argument [u] with [0 <= u <= 1].  Python [str] is [string], read over the
    ASCII range.  A raised exception is the [Raise] case of [result]. *)

From Stdlib Require Import ZArith QArith Qminmax Lia Lqa Bool List.
From Stdlib Require Import Ascii String DecimalString.
Import ListNotations.

Local Open Scope Z_scope.

(** ** Python exceptions *)

Inductive exn : Type :=
| ZeroDivisionError                 (* raised by the [/] operator itself *)
| ValueError (msg : string)
| FileNotFoundError (msg : string)
| AttributeError (msg : string).

Inductive result (A : Type) : Type :=
| Ret (a : A)
| Raise (e : exn).
Arguments Ret {A} a.
Arguments Raise {A} e.

Definition bind {A B : Type} (m : result A) (k : A -> result B) : result B :=
  match m with
  | Ret a => k a
  | Raise e => Raise e
  end.

Notation "x <- m ;; k" := (bind m (fun x => k))
  (at level 61, m at next level, right associativity).

(** ** utils/throttling.py *)

Module Throttler.

Local Open Scope Q_scope.

Record t : Type := mk {
  min_delay : Q;
  max_delay : Q;
  typing_speed : Q;
  page_load_min : Q;
  page_load_max : Q
}.

(** [Throttler()] with the default arguments of [__init__]. *)
Definition default : t := mk 30 120 5 2 5.

(** One call of [random.random()]. *)
Definition unit_draw (u : Q) : Prop := 0 <= u /\ u <= 1.

(** [random.uniform(a, b)] is [a + (b - a) * random()]. *)
Definition uniform (a b u : Q) : Q := a + (b - a) * u.

(** Python [x / y]: true division, [ZeroDivisionError] on a zero divisor. *)
Definition truediv (x y : Q) : result Q :=
  if Qeq_bool y 0 then Raise ZeroDivisionError else Ret (x / y).

(** Python [min(x, y)]: [y] when [y < x], else [x]. *)
Definition py_min (x y : Q) : Q :=
  match y ?= x with
  | Lt => y
  | _ => x
  end.

(** Python [2 ** n]: an integer for [n >= 0], the float [1 / 2 ** (-n)] below. *)
Definition pow2 (n : Z) : Q :=
  if (0 <=? n)%Z then inject_Z (2 ^ n) else / inject_Z (2 ^ (- n)).

Definition human_delay (self : t) (u : Q) : Q :=
  let delay := uniform (min_delay self) (max_delay self) u in
  delay.

Definition typing_delay (self : t) (message_length : Z) (u : Q) : result Q :=
  base_delay <- truediv (inject_Z message_length) (typing_speed self) ;;
  let variance := base_delay * uniform (- (2 # 10)) (2 # 10) u in
  Ret (base_delay + variance).

Definition page_load_delay (self : t) (u : Q) : Q :=
  uniform (page_load_min self) (page_load_max self) u.

(** The capped delay of [exponential_backoff] before jitter. *)
Definition backoff_raw (attempt : Z) (base_delay max_delay : Q) : Q :=
  py_min (base_delay * pow2 attempt) max_delay.

Definition exponential_backoff (attempt : Z) (base_delay max_delay : Q) (u : Q) : Q :=
  let delay := py_min (base_delay * pow2 attempt) max_delay in
  let jitter := delay * uniform 0 (1 # 10) u in
  delay + jitter.

(** An error that a test of the divisor made by [typing_delay] itself would
    report: the [/] operator is the only source of [ZeroDivisionError], so
    a guarded division never lets that exception out. *)
Definition reported_by_guard (r : result Q) : Prop :=
  exists e : exn, r = Raise e /\ e <> ZeroDivisionError.

End Throttler.

(** ** Python [str] operations used by the sources *)

Module Str.

Local Open Scope string_scope.
Local Open Scope nat_scope.

(** The regular-expression class [\w] on ASCII text: [[A-Za-z0-9_]]. *)
Definition is_word_char (c : ascii) : bool :=
  let n := nat_of_ascii c in
  ((48 <=? n) && (n <=? 57)) || ((65 <=? n) && (n <=? 90))
  || ((97 <=? n) && (n <=? 122)) || (n =? 95).

(** [str.isspace] on ASCII text: tab .. carriage return, FS .. US, space. *)
Definition is_space (c : ascii) : bool :=
  let n := nat_of_ascii c in
  ((9 <=? n) && (n <=? 13)) || ((28 <=? n) && (n <=? 32)).

Definition lbrace : ascii := "{"%char.
Definition rbrace : ascii := "}"%char.
Definition newline : ascii := "010"%char.

(** Python truthiness of a string: [not s]. *)
Definition is_empty (s : string) : bool :=
  match s with
  | EmptyString => true
  | String _ _ => false
  end.

Fixpoint lstrip (s : string) : string :=
  match s with
  | EmptyString => EmptyString
  | String c s' => if is_space c then lstrip s' else s
  end.

Fixpoint rstrip (s : string) : string :=
  match s with
  | EmptyString => EmptyString
  | String c s' =>
      let r := rstrip s' in
      if is_space c && is_empty r then EmptyString else String c r
  end.

(** [s.strip()] *)
Definition strip (s : string) : string := rstrip (lstrip s).

(** [Some rest] when [s = p ++ rest]. *)
Fixpoint drop_prefix (p s : string) : option string :=
  match p with
  | EmptyString => Some s
  | String a p' =>
      match s with
      | EmptyString => None
      | String b s' => if Ascii.eqb a b then drop_prefix p' s' else None
      end
  end.

(** The maximal prefix of characters satisfying [f], and what follows it:
    a greedy [[...]*] of a regular expression. *)
Fixpoint span (f : ascii -> bool) (s : string) : string * string :=
  match s with
  | EmptyString => (EmptyString, EmptyString)
  | String c s' =>
      if f c then let (w, rest) := span f s' in (String c w, rest)
      else (EmptyString, s)
  end.

(** [new.join] over the characters of [s], with [new] at both ends: what
    [s.replace("", new)] returns. *)
Fixpoint interleave (new s : string) : string :=
  match s with
  | EmptyString => new
  | String c s' => new ++ String c (interleave new s')
  end.

(** The scan of [s.replace(old, new)] for a non-empty [old]: occurrences are
    taken leftmost first and do not overlap; [skip] counts the characters of
    the occurrence just replaced that are still to be passed over. *)
Fixpoint replace_from (old new : string) (skip : nat) (s : string) : string :=
  match s with
  | EmptyString => EmptyString
  | String c s' =>
      match skip with
      | S k => replace_from old new k s'
      | O =>
          if prefix old s
          then new ++ replace_from old new (length old - 1) s'
          else String c (replace_from old new 0 s')
      end
  end.

(** [s.replace(old, new)] *)
Definition replace (old new s : string) : string :=
  if is_empty old then interleave new s else replace_from old new 0 s.

(** [re.findall(r'\{(\w+)\}', s)]: the names of the non-overlapping matches,
    leftmost first.  [\w+] is greedy and the closing brace is not a word
    character, so a match at a position exists exactly when the maximal run
    of word characters after the opening brace is non-empty and is followed
    by a closing brace. *)
Fixpoint findall_from (skip : nat) (s : string) : list string :=
  match s with
  | EmptyString => []
  | String c s' =>
      match skip with
      | S k => findall_from k s'
      | O =>
          if Ascii.eqb c lbrace then
            match span is_word_char s' with
            | (String a w, String b _) =>
                if Ascii.eqb b rbrace
                then String a w :: findall_from (length (String a w) + 1) s'
                else findall_from 0 s'
            | _ => findall_from 0 s'
            end
          else findall_from 0 s'
      end
  end.

Definition findall_placeholders (s : string) : list string := findall_from 0 s.

(** [value or default] for an optional string: [None] and [''] are falsy. *)
Definition or_default (value : option string) (default : string) : string :=
  match value with
  | Some s => if is_empty s then default else s
  | None => default
  end.

(** [f"{n}"] for a non-negative integer. *)
Definition of_nat (n : nat) : string := NilZero.string_of_uint (Nat.to_uint n).

End Str.

(** ** core/models.py: [Recipient] *)

Module Recipient.

Local Open Scope string_scope.

Record t : Type := mk {
  first_name : string;
  last_name : string;
  profile_url : string;
  company : option string;
  position : option string;
  location : option string
}.

(** [re.match(r'^https?://(www\.)?linkedin\.com/in/[\w-]+/?$', url)].
    Every optional or repeated part is followed by a character it cannot
    itself match, so the greedy choice is the only one that can succeed.
    [$] matches at the end and before a final newline. *)
Definition optional (p s : string) : string :=
  match Str.drop_prefix p s with
  | Some rest => rest
  | None => s
  end.

Definition at_dollar (s : string) : bool :=
  match s with
  | EmptyString => true
  | String c EmptyString => Ascii.eqb c Str.newline
  | _ => false
  end.

Definition is_slug_char (c : ascii) : bool :=
  Str.is_word_char c || Ascii.eqb c "-"%char.

Definition _is_valid_url (url : string) : bool :=
  match Str.drop_prefix "http" url with
  | None => false
  | Some s1 =>
      match Str.drop_prefix "://" (optional "s" s1) with
      | None => false
      | Some s2 =>
          match Str.drop_prefix "linkedin.com/in/" (optional "www." s2) with
          | None => false
          | Some s3 =>
              let (slug, s4) := Str.span is_slug_char s3 in
              negb (Str.is_empty slug) && at_dollar (optional "/" s4)
          end
      end
  end.

(** [not s or not s.strip()] *)
Definition blank (s : string) : bool :=
  Str.is_empty s || Str.is_empty (Str.strip s).

(** [__post_init__]: the checks run on every construction. *)
Definition __post_init__ (self : t) : result unit :=
  if blank (first_name self) then Raise (ValueError "First name is required")
  else if blank (last_name self) then Raise (ValueError "Last name is required")
  else if blank (profile_url self) then Raise (ValueError "Profile URL is required")
  else if negb (_is_valid_url (profile_url self))
  then Raise (ValueError ("Invalid LinkedIn profile URL: " ++ profile_url self))
  else Ret tt.

(** [Recipient(first_name=..., ...)]: the dataclass constructor. *)
Definition new (first_name last_name profile_url : string)
    (company position location : option string) : result t :=
  let self := mk first_name last_name profile_url company position location in
  _ <- __post_init__ self ;;
  Ret self.

Definition full_name (self : t) : string :=
  first_name self ++ " " ++ last_name self.

End Recipient.

(** ** utils/placeholders.py *)

Module PlaceholderReplacer.

Local Open Scope string_scope.

Definition SUPPORTED_PLACEHOLDERS : list string :=
  ["first_name"; "last_name"; "company"; "position"; "location"].

(** The [replacements] dictionary, in insertion order (the order in which
    [dict.items()] yields it). *)
Definition replacements (recipient : Recipient.t) : list (string * string) :=
  [ ("first_name", Recipient.first_name recipient);
    ("last_name", Recipient.last_name recipient);
    ("company", Str.or_default (Recipient.company recipient) "your company");
    ("position", Str.or_default (Recipient.position recipient) "your field");
    ("location", Str.or_default (Recipient.location recipient) "your area") ].

(** [f'{{{placeholder}}}'] *)
Definition pattern (placeholder : string) : string :=
  "{" ++ placeholder ++ "}".

Definition replace_placeholders (template : string) (recipient : Recipient.t) : string :=
  fold_left
    (fun message pv => Str.replace (pattern (fst pv)) (snd pv) message)
    (replacements recipient) template.

Definition supported (p : string) : bool :=
  existsb (String.eqb p) SUPPORTED_PLACEHOLDERS.

Definition validate_placeholders (template : string) : list string :=
  let placeholders := Str.findall_placeholders template in
  filter (fun p => negb (supported p)) placeholders.

(** *** Simultaneous substitution

    The reading of "every recognised placeholder substituted by the
    corresponding field" in one left-to-right pass over the template: text
    produced by a substitution is never scanned again.  This definition
    follows the specification's words; [replace_placeholders] above follows
    the source. *)
Fixpoint match_any (reps : list (string * string)) (s : string) : option (string * nat) :=
  match reps with
  | [] => None
  | (name, value) :: reps' =>
      if prefix (pattern name) s
      then Some (value, String.length (pattern name))
      else match_any reps' s
  end.

Fixpoint simultaneous_from (reps : list (string * string)) (skip : nat) (s : string) : string :=
  match s with
  | EmptyString => EmptyString
  | String c s' =>
      match skip with
      | S k => simultaneous_from reps k s'
      | O =>
          match match_any reps s with
          | Some (value, n) => value ++ simultaneous_from reps (n - 1) s'
          | None => String c (simultaneous_from reps 0 s')
          end
      end
  end.

Definition simultaneous_substitution (template : string) (recipient : Recipient.t) : string :=
  simultaneous_from (replacements recipient) 0 template.

(** *** Templates as token sequences

    A template in which every opening brace starts a [{name}] placeholder
    ([name] a non-empty run of word characters) is a sequence of literal
    pieces without opening brace and of placeholders. *)
Inductive token : Type :=
| Lit (text : string)
| Hole (name : string).

Fixpoint all_chars (f : ascii -> bool) (s : string) : bool :=
  match s with
  | EmptyString => true
  | String c s' => f c && all_chars f s'
  end.

Definition no_lbrace (s : string) : bool :=
  all_chars (fun c => negb (Ascii.eqb c Str.lbrace)) s.

Definition token_ok (tk : token) : bool :=
  match tk with
  | Lit text => no_lbrace text
  | Hole name => negb (Str.is_empty name) && all_chars Str.is_word_char name
  end.

Definition render_token (tk : token) : string :=
  match tk with
  | Lit text => text
  | Hole name => pattern name
  end.

Fixpoint render (tks : list token) : string :=
  match tks with
  | [] => EmptyString
  | tk :: tks' => render_token tk ++ render tks'
  end.

Fixpoint lookup (name : string) (reps : list (string * string)) : option string :=
  match reps with
  | [] => None
  | (n, v) :: reps' => if String.eqb name n then Some v else lookup name reps'
  end.

(** A placeholder of the vocabulary becomes the recipient's value; any other
    token is kept as it is written. *)
Definition fill_token (reps : list (string * string)) (tk : token) : string :=
  match tk with
  | Lit text => text
  | Hole name =>
      match lookup name reps with
      | Some v => v
      | None => pattern name
      end
  end.

Fixpoint fill (reps : list (string * string)) (tks : list token) : string :=
  match tks with
  | [] => EmptyString
  | tk :: tks' => fill_token reps tk ++ fill reps tks'
  end.

(** One pass of the loop of [replace_placeholders], seen on tokens. *)
Definition fill_one (name value : string) (tk : token) : token :=
  match tk with
  | Lit text => Lit text
  | Hole m => if String.eqb m name then Lit value else Hole m
  end.

Fixpoint holes (tks : list token) : list string :=
  match tks with
  | [] => []
  | Lit _ :: tks' => holes tks'
  | Hole name :: tks' => name :: holes tks'
  end.

End PlaceholderReplacer.

(** ** utils/csv_handler.py *)

Module CSVHandler.

Local Open Scope string_scope.

(** A row as [csv.DictReader] yields it: the cell under each field name
    ([None] where the line was short), and the surplus cells of a long line,
    which the reader stores as a list under the key [None]. *)
Record Row : Type := mkRow {
  cells : list (string * option string);
  surplus : list string
}.

Record CsvFile : Type := mkCsv {
  fieldnames : list string;
  rows : list Row
}.

Record t : Type := mk {
  csv_file : string;
  max_connections : Z
}.

(** [{k: v.strip() if v else '' for k, v in row.items()}]: a surplus list is
    truthy and has no [strip]. *)
Definition clean_cell (v : option string) : string :=
  match v with
  | Some s => if Str.is_empty s then "" else Str.strip s
  | None => ""
  end.

Definition cleaned (row : Row) : result (list (string * string)) :=
  match surplus row with
  | [] => Ret (map (fun kv => (fst kv, clean_cell (snd kv))) (cells row))
  | _ :: _ => Raise (AttributeError "'list' object has no attribute 'strip'")
  end.

(** [d.get(key)] *)
Fixpoint get (key : string) (d : list (string * string)) : option string :=
  match d with
  | [] => None
  | (k, v) :: d' => if String.eqb key k then Some v else get key d'
  end.

(** [d.get(key, '')] *)
Definition get_or_empty (key : string) (d : list (string * string)) : string :=
  match get key d with
  | Some v => v
  | None => ""
  end.

(** [d.get(key) or None] *)
Definition get_or_none (key : string) (d : list (string * string)) : option string :=
  match get key d with
  | Some v => if Str.is_empty v then None else Some v
  | None => None
  end.

Definition str_of_exn (e : exn) : string :=
  match e with
  | ZeroDivisionError => "division by zero"
  | ValueError msg => msg
  | FileNotFoundError msg => msg
  | AttributeError msg => msg
  end.

(** [_parse_row]: [inl recipient] stands for [(recipient, None)] and
    [inr error_msg] for [(None, error_msg)]. *)
Definition _parse_row (row : Row) (row_num : nat) : Recipient.t + string :=
  let attempt :=
    d <- cleaned row ;;
    Recipient.new (get_or_empty "first_name" d) (get_or_empty "last_name" d)
      (get_or_empty "profile_url" d)
      (get_or_none "company" d) (get_or_none "position" d) (get_or_none "location" d) in
  match attempt with
  | Ret recipient => inl recipient
  | Raise (ValueError msg) => inr ("Row " ++ Str.of_nat row_num ++ ": " ++ msg)
  | Raise e =>
      inr ("Row " ++ Str.of_nat row_num ++ ": Unexpected error - " ++ str_of_exn e)
  end.

(** The [for idx, row in enumerate(reader, start=1)] loop. *)
Fixpoint load_rows (self : t) (idx : nat) (todo : list Row)
    (recipients : list Recipient.t) (errors : list string)
    : list Recipient.t * list string :=
  match todo with
  | [] => (recipients, errors)
  | row :: todo' =>
      if (max_connections self <=? Z.of_nat (List.length recipients))%Z
      then (recipients, errors)
      else
        match _parse_row row idx with
        | inl recipient => load_rows self (S idx) todo' (recipients ++ [recipient]) errors
        | inr error => load_rows self (S idx) todo' recipients (errors ++ [error])
        end
  end.

Definition required_headers : list string :=
  ["first_name"; "last_name"; "profile_url"].

Definition has_required_headers (names : list string) : bool :=
  forallb (fun header => existsb (String.eqb header) names) required_headers.

(** [load_connections]; [file] is [None] when the path does not exist. *)
Definition load_connections (self : t) (file : option CsvFile)
    : result (list Recipient.t * list string) :=
  match file with
  | None => Raise (FileNotFoundError ("CSV file not found: " ++ csv_file self))
  | Some f =>
      if negb (has_required_headers (fieldnames f))
      then Raise (ValueError "CSV must contain headers: first_name, last_name, profile_url")
      else Ret (load_rows self 1 (rows f) [] [])
  end.

(** The outcome of [_parse_row] for each row, numbered from [idx]. *)
Fixpoint parse_all (idx : nat) (todo : list Row) : list (Recipient.t + string) :=
  match todo with
  | [] => []
  | row :: todo' => _parse_row row idx :: parse_all (S idx) todo'
  end.

Fixpoint accepted (outcomes : list (Recipient.t + string)) : list Recipient.t :=
  match outcomes with
  | [] => []
  | inl recipient :: rest => recipient :: accepted rest
  | inr _ :: rest => accepted rest
  end.

Fixpoint rejected (outcomes : list (Recipient.t + string)) : list string :=
  match outcomes with
  | [] => []
  | inl _ :: rest => rejected rest
  | inr error :: rest => error :: rejected rest
  end.

End CSVHandler.

(** ** core/models.py: [MessageLog] and [Config] *)

Inductive status : Type := sent | failed | skipped.

(** [MessageLog] without its timestamp. *)
Record MessageLog : Type := mkLog {
  recipient_name : string;
  log_profile_url : string;
  log_status : status;
  error_message : option string;
  template_used : option string;
  message_content : option string
}.

(** [Config]: the fields that [_send_messages] reads. *)
Record Config : Type := mkConfig {
  message_templates : list string;
  session_limit : Z;
  enable_circuit_breaker : bool;
  max_consecutive_failures : Z
}.

(** ** core/messenger.py *)

Module MessageSender.

Local Open Scope string_scope.

(** What the outside world answers during one call of [send_message]: the
    index drawn by [random.choice], and the outcome of each browser step
    (each step catches its own exceptions and reports [False]). *)
Record World : Type := mkWorld {
  choice : nat;
  navigated : bool;
  clicked : bool;
  typed : bool
}.

(** [MessageTemplate.apply_template(recipient)] with a random template. *)
Definition apply_template (templates : list string) (w : World)
    (recipient : Recipient.t) : string :=
  let template := nth (choice w mod List.length templates) templates "" in
  PlaceholderReplacer.replace_placeholders template recipient.

(** [send_message]: the returned triple and the new [messages_sent].  With
    string templates and a constructed recipient no step of the [try] block
    lets an exception out, so its [except] branch is not reached. *)
Definition send_message (templates : list string) (w : World)
    (recipient : Recipient.t) (messages_sent : Z)
    : (bool * option string * option string) * Z :=
  let message := apply_template templates w recipient in
  if negb (navigated w)
  then ((false, Some message, Some "Failed to navigate to profile"), messages_sent)
  else if negb (clicked w)
  then ((false, Some message, Some "Could not find message button"), messages_sent)
  else if negb (typed w)
  then ((false, Some message, Some "Failed to send message"), messages_sent)
  else ((true, Some message, None), messages_sent + 1).

End MessageSender.

(** ** main.py: [OutreachOrchestrator] *)

Module OutreachOrchestrator.

Local Open Scope string_scope.
Local Open Scope list_scope.

(** What the loop does to the outside world, in order: a call of
    [messenger.send_message] for the recipient at position [idx] with its
    outcome, and a call of [throttler.wait_human_delay]. *)
Inductive event : Type :=
| SendMessage (idx : nat) (recipient : Recipient.t) (success : bool)
| HumanDelay (idx : nat).

Record t : Type := mk {
  consecutive_failures : Z;
  messages_sent : Z;            (* [self.messenger.messages_sent] *)
  logs : list MessageLog;       (* [self.logger.logs] *)
  trace : list event
}.

(** [__init__] *)
Definition init : t := mk 0 0 [] [].

Definition _check_circuit_breaker (config : Config) (self : t) : bool :=
  if negb (enable_circuit_breaker config) then false
  else (max_consecutive_failures config <=? consecutive_failures self)%Z.

Definition log_message_sent (recipient : Recipient.t) (message : option string) : MessageLog :=
  mkLog (Recipient.full_name recipient) (Recipient.profile_url recipient)
    sent None None message.

Definition log_message_failed (recipient : Recipient.t) (error : string)
    (message : option string) : MessageLog :=
  mkLog (Recipient.full_name recipient) (Recipient.profile_url recipient)
    failed (Some error) None message.

(** The outcome of the delivery attempt for the recipient at [idx]. *)
Definition succeeds (config : Config) (w : MessageSender.World)
    (recipient : Recipient.t) (self : t) : bool :=
  fst (fst (fst
    (MessageSender.send_message (message_templates config) w recipient (messages_sent self)))).

(** The body of the loop below its two [break] tests. *)
Definition process (config : Config) (world : nat -> MessageSender.World)
    (total idx : nat) (recipient : Recipient.t) (self : t) : t :=
  let '((success, message, error), count) :=
    MessageSender.send_message (message_templates config) (world idx) recipient
      (messages_sent self) in
  let called := trace self ++ [SendMessage idx recipient success] in
  let logged :=
    if success
    then mk 0 count (logs self ++ [log_message_sent recipient message]) called
    else mk (consecutive_failures self + 1) count
           (logs self ++
              [log_message_failed recipient
                 (Str.or_default error "Unknown error") message])
           called in
  if (idx <? total)%nat && success
  then mk (consecutive_failures logged) (messages_sent logged) (logs logged)
         (trace logged ++ [HumanDelay idx])
  else logged.

(** [for idx, recipient in enumerate(recipients, start=1)] *)
Fixpoint send_loop (config : Config) (world : nat -> MessageSender.World)
    (total idx : nat) (recipients : list Recipient.t) (self : t) : t :=
  match recipients with
  | [] => self
  | recipient :: rest =>
      if (session_limit config <=? messages_sent self)%Z then self
      else if _check_circuit_breaker config self then self
      else send_loop config world total (S idx) rest
             (process config world total idx recipient self)
  end.

(** [_send_messages]: a fresh [MessageSender] (whose [MessageTemplate]
    refuses an empty template list), then the loop. *)
Definition _send_messages (config : Config) (world : nat -> MessageSender.World)
    (recipients : list Recipient.t) (self : t) : result t :=
  match message_templates config with
  | [] => Raise (ValueError "At least one template is required")
  | _ :: _ =>
      let fresh := mk (consecutive_failures self) 0 (logs self) (trace self) in
      Ret (send_loop config world (List.length recipients) 1 recipients fresh)
  end.

(** The positions at which [send_message] was called. *)
Fixpoint attempted (tr : list event) : list nat :=
  match tr with
  | [] => []
  | SendMessage idx _ _ :: tr' => idx :: attempted tr'
  | HumanDelay _ :: tr' => attempted tr'
  end.

(** Every browser step of every attempt succeeds. *)
Definition all_succeed (world : nat -> MessageSender.World) : Prop :=
  forall i : nat,
    MessageSender.navigated (world i) = true
    /\ MessageSender.clicked (world i) = true
    /\ MessageSender.typed (world i) = true.

End OutreachOrchestrator.
(** ** Sample data

    The two recipients of [create_sample_csv], rows for them, and small
    configurations used to run the definitions above. *)

Module Demo.

Local Open Scope string_scope.

Definition john : Recipient.t :=
  Recipient.mk "John" "Doe" "https://www.linkedin.com/in/johndoe/"
    (Some "TechCorp") (Some "Software Engineer") (Some "San Francisco, CA").

Definition jane : Recipient.t :=
  Recipient.mk "Jane" "Smith" "https://www.linkedin.com/in/janesmith/"
    (Some "DataCo") (Some "Data Scientist") (Some "New York, NY").

(** A recipient without optional fields; recipients whose first name is
    itself placeholder-shaped text; one whose first name is an underscore. *)
Definition plain : Recipient.t :=
  Recipient.mk "John" "Doe" "https://www.linkedin.com/in/johndoe/" None None None.

Definition injected : Recipient.t :=
  Recipient.mk "{company}" "Doe" "https://www.linkedin.com/in/johndoe/"
    (Some "Acme") None None.

Definition echo : Recipient.t :=
  Recipient.mk "{last_name}" "Doe" "https://www.linkedin.com/in/johndoe/"
    None None None.

Definition underscore : Recipient.t :=
  Recipient.mk "_" "Doe" "https://www.linkedin.com/in/johndoe/" None None None.

Definition greeting : list PlaceholderReplacer.token :=
  [PlaceholderReplacer.Lit "Hi ";
   PlaceholderReplacer.Hole "first_name";
   PlaceholderReplacer.Lit ", ";
   PlaceholderReplacer.Hole "nickname";
   PlaceholderReplacer.Lit " at ";
   PlaceholderReplacer.Hole "company";
   PlaceholderReplacer.Lit "}."].

Definition row_of (first last url : string) : CSVHandler.Row :=
  CSVHandler.mkRow
    [("first_name", Some first); ("last_name", Some last); ("profile_url", Some url);
     ("company", Some ""); ("position", Some ""); ("location", Some "")] [].

Definition john_row : CSVHandler.Row :=
  row_of "John" "Doe" "https://www.linkedin.com/in/johndoe/".

Definition jane_row : CSVHandler.Row :=
  row_of "Jane" "Smith" "https://www.linkedin.com/in/janesmith/".

(** A row whose [first_name] is empty, and one whose URL is not a profile. *)
Definition nameless_row : CSVHandler.Row :=
  row_of "" "Doe" "https://www.linkedin.com/in/johndoe/".

Definition bad_url_row : CSVHandler.Row :=
  row_of "John" "Doe" "invalid-url".

Definition header : list string :=
  ["first_name"; "last_name"; "profile_url"; "company"; "position"; "location"].

Definition config : Config :=
  mkConfig ["Hi {first_name}, I saw your work at {company}."] 3 true 3.

Definition always_ok : nat -> MessageSender.World :=
  fun _ => MessageSender.mkWorld 0 true true true.

(** The message button is missing for the recipient at position 2. *)
Definition second_fails : nat -> MessageSender.World :=
  fun i => MessageSender.mkWorld 0 true (negb (Nat.eqb i 2)) true.

End Demo.

(** ** Further parts of the sources

    The remaining methods of the modules above and the code around them:
    [Recipient.to_dict], [MessageLog.to_dict] and the status check of
    [MessageLog.__post_init__], the tallies of [core/logger.py], the full
    [Config] dataclass with its validation, [core/auth.py] and
    [OutreachOrchestrator.run]. *)

Module StrSpec.



(** ['@' in s] and the like. *)
Fixpoint contains_char (a : ascii) (s : string) : bool :=
  match s with
  | EmptyString => false
  | String c s' => Ascii.eqb a c || contains_char a s'
  end.

End StrSpec.

Module UrlSpec.

Local Open Scope string_scope.


End UrlSpec.

Module RecipientDict.

Local Open Scope string_scope.

(** [Recipient.to_dict] *)
Definition to_dict (self : Recipient.t) : list (string * string) :=
  [ ("first_name", Recipient.first_name self);
    ("last_name", Recipient.last_name self);
    ("profile_url", Recipient.profile_url self);
    ("company", Str.or_default (Recipient.company self) "");
    ("position", Str.or_default (Recipient.position self) "");
    ("location", Str.or_default (Recipient.location self) "") ].






End RecipientDict.

(** ** core/models.py: [MessageLog.__post_init__] and [MessageLog.to_dict] *)

Module MessageLogDict.

Local Open Scope string_scope.

(** The string that [status] stands for. *)
Definition status_name (s : status) : string :=
  match s with
  | sent => "sent"
  | failed => "failed"
  | skipped => "skipped"
  end.

(** The check of [__post_init__] on the status string. *)
Definition check_status (s : string) : result status :=
  if String.eqb s "sent" then Ret sent
  else if String.eqb s "failed" then Ret failed
  else if String.eqb s "skipped" then Ret skipped
  else Raise (ValueError "Status must be one of ['sent', 'failed', 'skipped']").

(** [self.message_content[:50] + '...' if self.message_content else ''] *)
Definition message_preview (content : option string) : string :=
  match content with
  | Some s => if Str.is_empty s then "" else substring 0 50 s ++ "..."
  | None => ""
  end.

(** [to_dict]; [timestamp] is [self.timestamp.isoformat()]. *)
Definition to_dict (timestamp : string) (self : MessageLog) : list (string * string) :=
  [ ("recipient_name", recipient_name self);
    ("profile_url", log_profile_url self);
    ("timestamp", timestamp);
    ("status", status_name (log_status self));
    ("error_message", Str.or_default (error_message self) "");
    ("template_used", Str.or_default (template_used self) "");
    ("message_preview", message_preview (message_content self)) ].

End MessageLogDict.

(** ** core/logger.py: the tallies *)

Module OutreachLogger.

Local Open Scope string_scope.

(** The columns written by [_ensure_log_file] and [_write_log_to_file]. *)
Definition fieldnames : list string :=
  ["recipient_name"; "profile_url"; "timestamp"; "status"; "error_message";
   "template_used"; "message_preview"].

Definition has_status (s : status) (log : MessageLog) : bool :=
  String.eqb (MessageLogDict.status_name (log_status log)) (MessageLogDict.status_name s).

(** [sum(1 for log in self.logs if log.status == ...)] *)
Definition tally (s : status) (logs : list MessageLog) : nat :=
  List.length (filter (has_status s) logs).

Definition get_message_count (logs : list MessageLog) : nat := tally sent logs.
Definition get_failed_count (logs : list MessageLog) : nat := tally failed logs.
Definition get_skipped_count (logs : list MessageLog) : nat := tally skipped logs.

(** [log_message_skipped] *)
Definition log_message_skipped (recipient : Recipient.t) (reason : string) : MessageLog :=
  mkLog (Recipient.full_name recipient) (Recipient.profile_url recipient)
    skipped (Some reason) None None.

End OutreachLogger.

(** ** core/models.py: [Config] *)

Module ConfigModel.

Local Open Scope string_scope.

(** The [Config] dataclass with all its fields. *)
Record t : Type := mk {
  linkedin_email : string;
  linkedin_password : string;
  message_templates : list string;
  daily_limit : Z;
  session_limit : Z;
  max_connections : Z;
  min_delay : Z;
  max_delay : Z;
  typing_speed : Z;
  page_load_min : Z;
  page_load_max : Z;
  log_level : string;
  log_file : string;
  enable_circuit_breaker : bool;
  max_consecutive_failures : Z;
  retry_attempts : Z
}.

Definition __post_init__ (self : t) : result unit :=
  if Str.is_empty (linkedin_email self)
     || negb (StrSpec.contains_char "@" (linkedin_email self))
  then Raise (ValueError "Valid LinkedIn email is required")
  else if Str.is_empty (linkedin_password self)
  then Raise (ValueError "LinkedIn password is required")
  else if match message_templates self with [] => true | _ :: _ => false end
  then Raise (ValueError "At least one message template is required")
  else if (daily_limit self <=? 0)%Z
  then Raise (ValueError "Daily limit must be positive")
  else if (min_delay self <? 0)%Z || (max_delay self <? min_delay self)%Z
  then Raise (ValueError "Invalid delay configuration")
  else Ret tt.

(** [Config(...)]: the dataclass constructor. *)
Definition new (self : t) : result t :=
  _ <- __post_init__ self ;;
  Ret self.

(** What [_send_messages] reads of the configuration. *)
Definition for_loop (self : t) : Config :=
  mkConfig (message_templates self) (session_limit self)
    (enable_circuit_breaker self) (max_consecutive_failures self).

(** The [Throttler] and the [CSVHandler] built by [_initialize_components]. *)
Definition throttler (self : t) : Throttler.t :=
  Throttler.mk (inject_Z (min_delay self)) (inject_Z (max_delay self))
    (inject_Z (typing_speed self))
    (inject_Z (page_load_min self)) (inject_Z (page_load_max self)).

Definition csv_handler (self : t) : CSVHandler.t :=
  CSVHandler.mk "data/connections.csv" (max_connections self).

End ConfigModel.

(** ** core/auth.py *)

Module LinkedInAuth.

(** What the class does to the outside world. *)
Inductive event : Type :=
| DriverStarted       (* [webdriver.Chrome(...)] returned a browser *)
| LoginSubmitted      (* [_login] sent the credentials *)
| SessionSaved        (* [_save_session] wrote the cookies *)
| DriverQuit.         (* [self.driver.quit()] *)

(** How [_init_driver] ends: with a browser, with an exception before the
    browser exists, or with an exception after [self.driver] was assigned
    (the [execute_script] call). *)
Inductive start : Type :=
| Started
| FailsWithoutDriver
| FailsWithDriver.

(** The answers of the outside world: each of [_load_session],
    [_verify_session] and [_login] catches its exceptions and returns a
    boolean; [_save_session] catches them and returns nothing. *)
Record Env : Type := mkEnv {
  start_outcome : start;
  session_loaded : bool;
  session_valid : bool;
  login_ok : bool;
  save_ok : bool
}.

Record t : Type := mk {
  driver : bool;               (* [self.driver is not None] *)
  _authenticated : bool;
  trace : list event
}.

(** [__init__] *)
Definition new : t := mk false false [].

Definition authenticate (env : Env) (self : t) : bool * t :=
  match start_outcome env with
  | FailsWithoutDriver => (false, self)
  | FailsWithDriver =>
      (false, mk true (_authenticated self) (trace self ++ [DriverStarted]))
  | Started =>
      let opened := trace self ++ [DriverStarted] in
      if session_loaded env && session_valid env
      then (true, mk true true opened)
      else
        let submitted := opened ++ [LoginSubmitted] in
        if login_ok env
        then (true, mk true true
                      (submitted ++ (if save_ok env then [SessionSaved] else [])))
        else (false, mk true (_authenticated self) submitted)
  end.

Definition is_authenticated (self : t) : bool :=
  _authenticated self && driver self.

(** [get_driver]: [None] stands for the [RuntimeError] it raises. *)
Definition get_driver (self : t) : option unit :=
  if negb (is_authenticated self) then None else Some tt.

Definition close (self : t) : t :=
  if driver self
  then mk (driver self) false (trace self ++ [DriverQuit])
  else self.

Definition count (e : event) (tr : list event) : nat :=
  List.length
    (filter (fun x => match e, x with
                      | DriverStarted, DriverStarted => true
                      | LoginSubmitted, LoginSubmitted => true
                      | SessionSaved, SessionSaved => true
                      | DriverQuit, DriverQuit => true
                      | _, _ => false
                      end) tr).

End LinkedInAuth.

(** ** main.py: [OutreachOrchestrator.run] *)

Module Workflow.

(** The outside world of one run: what [ConfigLoader.load] reads before it
    builds the [Config] (or the exception of a missing file or key), whether
    the log file can be created, the CSV file if there is one, the browser,
    and the answers to each delivery.  An interrupt from the keyboard is
    not part of the model. *)
Record Env : Type := mkEnv {
  settings : result ConfigModel.t;
  files_writable : bool;
  csv : option CSVHandler.CsvFile;
  browser : LinkedInAuth.Env;
  world : nat -> MessageSender.World
}.

Record t : Type := mk {
  config : option ConfigModel.t;
  auth : option LinkedInAuth.t;
  loop : OutreachOrchestrator.t;
  sample_csv_created : bool;
  summary_printed : bool
}.

(** [OutreachOrchestrator()] *)
Definition init : t := mk None None OutreachOrchestrator.init false false.

(** [_load_configuration]: every exception is reported and gives [False]. *)
Definition _load_configuration (env : Env) : option ConfigModel.t :=
  match (raw <- settings env ;; ConfigModel.new raw) with
  | Ret c => Some c
  | Raise _ => None
  end.

(** [_load_recipients]: the recipients, the errors, and whether the sample
    file was written. *)
Definition _load_recipients (c : ConfigModel.t) (env : Env)
    : list Recipient.t * list string * bool :=
  match CSVHandler.load_connections (ConfigModel.csv_handler c) (csv env) with
  | Ret (recipients, errors) => (recipients, errors, false)
  | Raise (FileNotFoundError _) => ([], [], true)
  | Raise _ => ([], [], false)
  end.

(** [_authenticate] *)
Definition _authenticate (env : Env) : bool * LinkedInAuth.t :=
  LinkedInAuth.authenticate (browser env) LinkedInAuth.new.

(** [_send_messages] with its call of [self.auth.get_driver()]. *)
Definition _send_messages (c : ConfigModel.t) (env : Env) (a : LinkedInAuth.t)
    (recipients : list Recipient.t) (self : OutreachOrchestrator.t)
    : option OutreachOrchestrator.t :=
  match OutreachOrchestrator._send_messages (ConfigModel.for_loop c) (world env)
          recipients self with
  | Raise _ => None
  | Ret after =>
      match LinkedInAuth.get_driver a with
      | None => None
      | Some _ => Some after
      end
  end.

(** [_cleanup] *)
Definition _cleanup (self : t) : t :=
  match auth self with
  | Some a =>
      mk (config self) (Some (LinkedInAuth.close a)) (loop self)
        (sample_csv_created self) (summary_printed self)
  | None => self
  end.

(** The [try] block of [run]: the value returned (an exception gives
    [False]) and the state it leaves. *)
Definition body (dry_run : bool) (env : Env) : bool * t :=
  match _load_configuration env with
  | None => (false, init)
  | Some c =>
      if negb (files_writable env)
      then (false, mk (Some c) None OutreachOrchestrator.init false false)
      else
        let '(recipients, errors, sample) := _load_recipients c env in
        match recipients with
        | [] => (false, mk (Some c) None OutreachOrchestrator.init sample false)
        | _ :: _ =>
            if dry_run
            then (true, mk (Some c) None OutreachOrchestrator.init sample false)
            else
              let '(ok, a) := _authenticate env in
              if negb ok
              then (false, mk (Some c) (Some a) OutreachOrchestrator.init sample false)
              else
                match _send_messages c env a recipients OutreachOrchestrator.init with
                | None =>
                    (false, mk (Some c) (Some a) OutreachOrchestrator.init sample false)
                | Some after => (true, mk (Some c) (Some a) after sample true)
                end
        end
  end.

(** [run]: the [try] block, then [_cleanup] in the [finally] clause. *)
Definition run (dry_run : bool) (env : Env) : bool * t :=
  let '(outcome, self) := body dry_run env in
  (outcome, _cleanup self).

End Workflow.

(** ** Helpers for statements about templates and the send loop *)

Module TemplateSpec.

(** The tokens left by the passes of [replace_placeholders] for the
    replacement list [reps], first pair first. *)
Definition fill_tokens (reps : list (string * string))
    (tks : list PlaceholderReplacer.token) : list PlaceholderReplacer.token :=
  fold_left (fun acc pv => map (PlaceholderReplacer.fill_one (fst pv) (snd pv)) acc)
    reps tks.

End TemplateSpec.

Module LoopSpec.

(** The recipients handed to [send_message] and the outcome of each call,
    in order. *)
Fixpoint outcomes (tr : list OutreachOrchestrator.event) : list (Recipient.t * bool) :=
  match tr with
  | [] => []
  | OutreachOrchestrator.SendMessage _ r ok :: tr' => (r, ok) :: outcomes tr'
  | OutreachOrchestrator.HumanDelay _ :: tr' => outcomes tr'
  end.

(** The positions after which the loop waited. *)
Fixpoint delays (tr : list OutreachOrchestrator.event) : list nat :=
  match tr with
  | [] => []
  | OutreachOrchestrator.SendMessage _ _ _ :: tr' => delays tr'
  | OutreachOrchestrator.HumanDelay idx :: tr' => idx :: delays tr'
  end.

(** What a log entry shows: whom it is about and how it ended. *)
Definition name_and_status (l : MessageLog) : string * status :=
  (recipient_name l, log_status l).

(** What the log shows of an attempt. *)
Definition shown (attempt : Recipient.t * bool) : string * status :=
  (Recipient.full_name (fst attempt), if snd attempt then sent else failed).

(** Some browser step of every attempt fails. *)
Definition all_fail (world : nat -> MessageSender.World) : Prop :=
  forall i : nat,
    MessageSender.navigated (world i) && MessageSender.clicked (world i)
    && MessageSender.typed (world i) = false.

End LoopSpec.

(** ** More sample data *)

Module Samples.

Local Open Scope string_scope.

(** No profile page ever loads. *)
Definition never_ok : nat -> MessageSender.World :=
  fun _ => MessageSender.mkWorld 0 false true true.

Definition five : list Recipient.t :=
  [Demo.john; Demo.jane; Demo.plain; Demo.john; Demo.jane].

Definition settings : ConfigModel.t :=
  ConfigModel.mk "user@example.com" "secret"
    ["Hi {first_name}, I saw your work at {company}."]
    50 3 10 30 120 5 2 5 "INFO" "data/logs.csv" true 3 3.

Definition csv : CSVHandler.CsvFile :=
  CSVHandler.mkCsv Demo.header [Demo.john_row; Demo.nameless_row; Demo.jane_row].

(** A browser that starts, has no saved session and logs in. *)
Definition fresh_login : LinkedInAuth.Env :=
  LinkedInAuth.mkEnv LinkedInAuth.Started false false true true.

(** A browser whose start fails after the window was opened. *)
Definition broken_start : LinkedInAuth.Env :=
  LinkedInAuth.mkEnv LinkedInAuth.FailsWithDriver false false true true.

Definition env (b : LinkedInAuth.Env) : Workflow.Env :=
  Workflow.mkEnv (Ret settings) true (Some csv) b Demo.always_ok.

End Samples.
(** * Delay policy *)

Section DelayPolicy.

Import Throttler.
Local Open Scope Q_scope.

Lemma uniform_between (a b u : Q) :
  a <= b -> unit_draw u -> a <= uniform a b u <= b.
Proof.
  unfold unit_draw, uniform. intros Hab [H0 H1]. split; nra.
Qed.

Lemma py_min_is_Qmin (x y : Q) : py_min x y == Qmin x y.
Proof.
  unfold py_min. destruct (Qcompare_spec y x) as [E | L | G].
  - rewrite Q.min_l; [reflexivity | rewrite E; apply Qle_refl].
  - rewrite Q.min_r; [reflexivity | apply Qlt_le_weak, L].
  - rewrite Q.min_l; [reflexivity | apply Qlt_le_weak, G].
Qed.

Lemma pow2_nonneg (n : Z) : (0 <= n)%Z -> pow2 n = inject_Z (2 ^ n).
Proof.
  intros H. unfold pow2. destruct (Z.leb_spec 0 n); [reflexivity | lia].
Qed.

Lemma pow2_mono (n m : Z) : (0 <= n <= m)%Z -> pow2 n <= pow2 m.
Proof.
  intros [Hn Hm]. rewrite !pow2_nonneg by lia.
  rewrite <- Zle_Qle. apply Z.pow_le_mono_r; lia.
Qed.

Lemma backoff_raw_is_min (attempt : Z) (base_delay max_delay : Q) :
  (0 <= attempt)%Z ->
  backoff_raw attempt base_delay max_delay
  == Qmin (base_delay * inject_Z (2 ^ attempt)) max_delay.
Proof.
  intros H. unfold backoff_raw. rewrite py_min_is_Qmin, pow2_nonneg by exact H.
  reflexivity.
Qed.

Lemma truediv_nonzero (x y : Q) : ~ y == 0 -> truediv x y = Ret (x / y).
Proof.
  intros H. unfold truediv. destruct (Qeq_bool y 0) eqn:E; [|reflexivity].
  apply Qeq_bool_iff in E. contradiction.
Qed.

Lemma truediv_zero (x y : Q) : y == 0 -> truediv x y = Raise ZeroDivisionError.
Proof.
  intros H. unfold truediv. apply Qeq_bool_iff in H. rewrite H. reflexivity.
Qed.

(** C6.  With [0 <= min_delay <= max_delay] and
    [page_load_min <= page_load_max], [human_delay] returns a value in
    [[min_delay, max_delay]] and [page_load_delay] a value in
    [[page_load_min, page_load_max]], whatever the random draw. *)
Theorem delays_within_bounds (self : t) (u1 u2 : Q) :
  0 <= min_delay self -> min_delay self <= max_delay self ->
  page_load_min self <= page_load_max self ->
  unit_draw u1 -> unit_draw u2 ->
  (min_delay self <= human_delay self u1 <= max_delay self)
  /\ (page_load_min self <= page_load_delay self u2 <= page_load_max self).
Proof.
  intros _ Hd Hp Hu1 Hu2. unfold human_delay, page_load_delay.
  split; apply uniform_between; assumption.
Qed.

Lemma delays_within_bounds_witness :
  (30 <= human_delay default (1 # 3) <= 120)
  /\ (2 <= page_load_delay default (3 # 4) <= 5).
Proof.
  apply (delays_within_bounds default (1 # 3) (3 # 4));
    unfold unit_draw; simpl; try split; discriminate.
Defined.

(** C1.  For [attempt >= 0] and positive [base_delay], [max_delay], with
    [raw = min(base_delay * 2^attempt, max_delay)]: the result of
    [exponential_backoff] lies in [[raw, raw * 1.1]]; [raw] does not
    decrease when [attempt] grows, and stays at [max_delay] once the cap is
    reached.  The bounds are those of the test values for base 5, cap 300. *)
Theorem exponential_backoff_bounds (attempt : Z) (base_delay max_delay u : Q) :
  (0 <= attempt)%Z -> 0 < base_delay -> 0 < max_delay -> unit_draw u ->
  let raw := Qmin (base_delay * inject_Z (2 ^ attempt)) max_delay in
  backoff_raw attempt base_delay max_delay == raw
  /\ (raw <= exponential_backoff attempt base_delay max_delay u <= raw * (11 # 10))
  /\ (forall later : Z, (attempt <= later)%Z ->
        raw <= backoff_raw later base_delay max_delay)
  /\ (max_delay <= base_delay * inject_Z (2 ^ attempt) ->
      forall later : Z, (attempt <= later)%Z ->
        backoff_raw later base_delay max_delay == max_delay)
  /\ (base_delay == 5 -> max_delay == 300 ->
      Qmin (5 * inject_Z (2 ^ attempt)) 300
        <= exponential_backoff attempt base_delay max_delay u
        <= Qmin (5 * inject_Z (2 ^ attempt)) 300 * (11 # 10)).
Proof.
  intros Ha Hb Hm Hu raw.
  assert (Hraw : backoff_raw attempt base_delay max_delay == raw)
    by (apply backoff_raw_is_min; exact Ha).
  assert (Hpos : 0 < raw).
  { unfold raw. apply Q.min_glb_lt; [|exact Hm].
    apply Qmult_lt_0_compat; [exact Hb|].
    change 0 with (inject_Z 0). rewrite <- Zlt_Qlt. apply Z.pow_pos_nonneg; lia. }
  assert (Hbounds :
    raw <= exponential_backoff attempt base_delay max_delay u <= raw * (11 # 10)).
  { unfold exponential_backoff. fold (backoff_raw attempt base_delay max_delay).
    rewrite Hraw. destruct Hu as [H0 H1]. unfold uniform. split; nra. }
  assert (Hstep : forall later : Z, (attempt <= later)%Z ->
            base_delay * pow2 attempt <= base_delay * pow2 later).
  { intros later Hl. apply Qmult_le_l; [exact Hb|]. apply pow2_mono. lia. }
  split; [exact Hraw|]. split; [exact Hbounds|]. split; [|split].
  - intros later Hl. rewrite <- Hraw. unfold backoff_raw.
    rewrite !py_min_is_Qmin. apply Q.min_le_compat_r. apply Hstep, Hl.
  - intros Hcap later Hl. unfold backoff_raw. rewrite py_min_is_Qmin.
    apply Q.min_r. apply Qle_trans with (base_delay * pow2 attempt).
    + rewrite pow2_nonneg by exact Ha. exact Hcap.
    + apply Hstep, Hl.
  - intros E5 E300.
    assert (Eraw : raw == Qmin (5 * inject_Z (2 ^ attempt)) 300).
    { unfold raw. rewrite E5, E300. reflexivity. }
    rewrite <- Eraw. exact Hbounds.
Qed.

Lemma exponential_backoff_bounds_witness :
  20 <= exponential_backoff 2 5 300 (1 # 2) <= 22
  /\ 300 <= backoff_raw 10 5 300.
Proof.
  destruct (exponential_backoff_bounds 2 5 300 (1 # 2))
    as (_ & Hbounds & Hmono & _).
  - lia.
  - reflexivity.
  - reflexivity.
  - split; discriminate.
  - split.
    + split; [apply Qle_trans with (1 := ltac:(discriminate) : 20 <= Qmin (5 * inject_Z (2 ^ 2)) 300) | ];
        [apply Hbounds | apply Qle_trans with (1 := proj2 Hbounds); discriminate].
    + pose proof (exponential_backoff_bounds 6 5 300 (1 # 2)
        ltac:(lia) ltac:(reflexivity) ltac:(reflexivity)
        ltac:(split; discriminate)) as (_ & _ & Hm6 & _).
      apply Qle_trans with (2 := Hm6 10%Z ltac:(lia)). discriminate.
Defined.

(** C5.  For [message_length >= 0] and a positive typing speed,
    [typing_delay] returns [base * f] with [base = message_length /
    typing_speed] and [f] in [[0.8, 1.2]]; the value is never negative; for
    100 characters at 5 per second it lies in [[16, 24]]. *)
Theorem typing_delay_bounds (self : t) (message_length : Z) (u : Q) :
  (0 <= message_length)%Z -> 0 < typing_speed self -> unit_draw u ->
  exists delay factor : Q,
    typing_delay self message_length u = Ret delay
    /\ delay == (inject_Z message_length / typing_speed self) * factor
    /\ (8 # 10) <= factor <= (12 # 10)
    /\ 0 <= delay
    /\ (message_length = 100%Z -> typing_speed self == 5 -> 16 <= delay <= 24).
Proof.
  intros Hlen Hspeed [H0 H1].
  set (base := inject_Z message_length / typing_speed self).
  set (factor := 1 + uniform (- (2 # 10)) (2 # 10) u).
  assert (Hbase : 0 <= base).
  { unfold base. apply Qle_shift_div_l; [exact Hspeed|].
    rewrite Qmult_0_l. change 0 with (inject_Z 0). rewrite <- Zle_Qle. exact Hlen. }
  assert (Hf : (8 # 10) <= factor <= (12 # 10)).
  { unfold factor, uniform. split; nra. }
  exists (base + base * uniform (- (2 # 10)) (2 # 10) u), factor.
  split; [|split; [|split; [|split]]].
  - unfold typing_delay. rewrite truediv_nonzero; [reflexivity|].
    intros E. rewrite E in Hspeed. discriminate.
  - unfold factor. ring.
  - exact Hf.
  - fold factor in Hf |- *. unfold factor in *. nra.
  - intros E100 E5.
    assert (Eb : base == 20).
    { unfold base. rewrite E100, E5. reflexivity. }
    rewrite Eb. unfold factor in Hf. split; nra.
Qed.

Lemma typing_delay_bounds_witness :
  exists delay : Q,
    typing_delay default 100 (1 # 4) = Ret delay /\ 16 <= delay <= 24.
Proof.
  destruct (typing_delay_bounds default 100 (1 # 4))
    as (delay & factor & Hret & _ & _ & _ & Hrange).
  - lia.
  - reflexivity.
  - split; discriminate.
  - exists delay. split; [exact Hret|]. apply Hrange; reflexivity.
Defined.

(** C4, as stated, fails: with a typing speed of 0 the exception that leaves
    [typing_delay] is the one of the division itself. *)
Lemma typing_delay_zero_speed_unguarded :
  ~ (forall (self : t) (message_length : Z) (u : Q),
       typing_speed self == 0 ->
       reported_by_guard (typing_delay self message_length u)).
Proof.
  intros H.
  destruct (H (mk 30 120 0 2 5) 100%Z (1 # 2) ltac:(reflexivity)) as (e & Hr & Hne).
  apply Hne. vm_compute in Hr. congruence.
Qed.

(** C4, amended.  With a typing speed of 0, [typing_delay] performs its
    division unguarded and the division raises [ZeroDivisionError]: an error
    is signalled and no number is returned. *)
Theorem typing_delay_zero_speed_raises (self : t) (message_length : Z) (u : Q) :
  typing_speed self == 0 ->
  typing_delay self message_length u = Raise ZeroDivisionError
  /\ forall delay : Q, typing_delay self message_length u <> Ret delay.
Proof.
  intros H. unfold typing_delay. rewrite truediv_zero by exact H.
  split; [reflexivity | discriminate].
Qed.

Lemma typing_delay_zero_speed_raises_witness :
  typing_delay (mk 30 120 0 2 5) 100 (1 # 2) = Raise ZeroDivisionError.
Proof.
  apply (typing_delay_zero_speed_raises (mk 30 120 0 2 5) 100 (1 # 2)).
  reflexivity.
Defined.

End DelayPolicy.

(** * Orchestrator loop *)

Section SendLoop.

Import OutreachOrchestrator.
Local Open Scope Z_scope.

Variable config : Config.
Variable world : nat -> MessageSender.World.

(** What one pass through the loop body does to each part of the state. *)
Lemma process_fields (total idx : nat) (r : Recipient.t) (self : t) :
  let s := succeeds config (world idx) r self in
  let after := process config world total idx r self in
  consecutive_failures after = (if s then 0 else consecutive_failures self + 1)
  /\ messages_sent after = (if s then messages_sent self + 1 else messages_sent self)
  /\ trace after =
       (trace self ++
          SendMessage idx r s :: (if s && (idx <? total)%nat then [HumanDelay idx] else []))%list
  /\ (exists entry, logs after = (logs self ++ [entry])%list
        /\ log_status entry = (if s then sent else failed)).
Proof.
  unfold succeeds, process, MessageSender.send_message.
  destruct (MessageSender.navigated (world idx)),
           (MessageSender.clicked (world idx)),
           (MessageSender.typed (world idx)),
           (idx <? total)%nat; simpl;
    rewrite <- ?app_assoc; simpl;
    (repeat split; try reflexivity); eexists; split; reflexivity.
Qed.

Lemma process_cf total idx r self :
  consecutive_failures (process config world total idx r self)
  = if succeeds config (world idx) r self then 0 else consecutive_failures self + 1.
Proof. apply process_fields. Qed.

Lemma process_sent total idx r self :
  messages_sent (process config world total idx r self)
  = if succeeds config (world idx) r self
    then messages_sent self + 1 else messages_sent self.
Proof. apply process_fields. Qed.

Lemma process_trace total idx r self :
  trace (process config world total idx r self)
  = (trace self ++
      SendMessage idx r (succeeds config (world idx) r self)
        :: (if succeeds config (world idx) r self && (idx <? total)%nat
            then [HumanDelay idx] else []))%list.
Proof. apply process_fields. Qed.

Lemma send_loop_cf_nonneg total : forall rs idx self,
  0 <= consecutive_failures self ->
  0 <= consecutive_failures (send_loop config world total idx rs self).
Proof.
  induction rs as [|r rs IH]; intros idx self H; simpl; [exact H|].
  destruct (session_limit config <=? messages_sent self); [exact H|].
  destruct (_check_circuit_breaker config self); [exact H|].
  apply IH. rewrite process_cf.
  destruct (succeeds config (world idx) r self); lia.
Qed.

Lemma send_loop_stops total idx rs self :
  session_limit config <= messages_sent self ->
  send_loop config world total idx rs self = self.
Proof.
  intros H. destruct rs as [|r rs]; simpl; [reflexivity|].
  destruct (Z.leb_spec (session_limit config) (messages_sent self)); [reflexivity|lia].
Qed.

Lemma send_loop_prefix total : forall pre post idx self,
  session_limit config <= messages_sent (send_loop config world total idx pre self) ->
  send_loop config world total idx (pre ++ post)%list self
  = send_loop config world total idx pre self.
Proof.
  induction pre as [|r pre IH]; intros post idx self H; simpl in *.
  - apply send_loop_stops, H.
  - destruct (session_limit config <=? messages_sent self); [reflexivity|].
    destruct (_check_circuit_breaker config self); [reflexivity|].
    apply IH, H.
Qed.

Lemma send_loop_sent_le total : forall rs idx self,
  messages_sent (send_loop config world total idx rs self)
  <= Z.max (session_limit config) (messages_sent self).
Proof.
  induction rs as [|r rs IH]; intros idx self; simpl; [lia|].
  destruct (Z.leb_spec (session_limit config) (messages_sent self)); [lia|].
  destruct (_check_circuit_breaker config self); [lia|].
  etransitivity; [apply IH|]. rewrite process_sent.
  destruct (succeeds config (world idx) r self); lia.
Qed.

Lemma send_loop_trace total : forall rs idx self,
  exists block : list event,
    trace (send_loop config world total idx rs self) = (trace self ++ block)%list
    /\ (forall i, In (HumanDelay i) block <->
          (exists r, In (SendMessage i r true) block) /\ (i < total)%nat)
    /\ (forall i r b, In (SendMessage i r b) block ->
          (idx <= i)%nat /\ nth_error rs (i - idx) = Some r).
Proof.
  assert (Hnil : forall (rs : list Recipient.t) (idx : nat) (self : t),
    exists block : list event,
      trace self = (trace self ++ block)%list
      /\ (forall i, In (HumanDelay i) block <->
            (exists r, In (SendMessage i r true) block) /\ (i < total)%nat)
      /\ (forall i r b, In (SendMessage i r b) block ->
            (idx <= i)%nat /\ nth_error rs (i - idx) = Some r)).
  { intros rs idx self. exists []. rewrite app_nil_r. split; [reflexivity|].
    split; [|intros i r b []]. intros i. split; [intros []|intros [[r []] _]]. }
  induction rs as [|r rs IH]; intros idx self; [apply Hnil|].
  simpl.
  destruct (session_limit config <=? messages_sent self); [apply Hnil|].
  destruct (_check_circuit_breaker config self); [apply Hnil|].
  {
    destruct (IH (S idx) (process config world total idx r self))
      as (block & E & Hd & Hs).
    rewrite process_trace, <- app_assoc in E.
    set (s := succeeds config (world idx) r self) in *.
    exists ((SendMessage idx r s
              :: (if s && (idx <? total)%nat then [HumanDelay idx] else [])) ++ block)%list.
    split; [exact E|]. split.
    + intros i. rewrite in_app_iff. split.
      * intros [Hin | Hin].
        -- destruct Hin as [Hin | Hin]; [discriminate|].
           destruct s eqn:Es; simpl in Hin;
             [destruct (Nat.ltb_spec idx total)|]; simpl in Hin;
             try contradiction.
           destruct Hin as [Hin | []]. injection Hin as <-.
           split; [|assumption]. exists r. apply in_or_app. left. left. reflexivity.
        -- apply Hd in Hin. destruct Hin as [[r' Hr'] Hlt]. split; [|exact Hlt].
           exists r'. apply in_or_app. right. exact Hr'.
      * intros [[r' Hr'] Hlt]. apply in_app_iff in Hr'. destruct Hr' as [Hr' | Hr'].
        -- left. destruct Hr' as [Hr' | Hr'].
           ++ injection Hr' as <- <- Es. rewrite Es.
              destruct (Nat.ltb_spec idx total); [|lia]. simpl. right. left. reflexivity.
           ++ destruct (s && (idx <? total)%nat); simpl in Hr';
                [destruct Hr' as [Hr' | []]; discriminate | contradiction].
        -- right. apply Hd. split; [exists r'; exact Hr' | exact Hlt].
    + intros i r' b Hin. apply in_app_iff in Hin. destruct Hin as [Hin | Hin].
      * destruct Hin as [Hin | Hin].
        -- injection Hin as <- <- _. rewrite Nat.sub_diag. split; [lia | reflexivity].
        -- destruct (s && (idx <? total)%nat); simpl in Hin;
             [destruct Hin as [Hin | []]; discriminate | contradiction].
      * apply Hs in Hin. destruct Hin as [Hle Hnth]. split; [lia|].
        replace (i - idx)%nat with (S (i - S idx)) by lia. exact Hnth.
  }
Qed.


Lemma process_success total idx r self :
  succeeds config (world idx) r self = true ->
  process config world total idx r self
  = mk 0 (messages_sent self + 1)
      (logs self ++
         [log_message_sent r
            (Some (MessageSender.apply_template (message_templates config) (world idx) r))])%list
      (trace self ++
         SendMessage idx r true
           :: (if (idx <? total)%nat then [HumanDelay idx] else []))%list.
Proof.
  unfold succeeds, process, MessageSender.send_message.
  destruct (MessageSender.navigated (world idx)),
           (MessageSender.clicked (world idx)),
           (MessageSender.typed (world idx)); simpl; try discriminate.
  intros _. destruct (idx <? total)%nat; simpl;
    rewrite <- ?app_assoc; reflexivity.
Qed.

Lemma all_succeed_succeeds idx r self :
  all_succeed world -> succeeds config (world idx) r self = true.
Proof.
  intros H. destruct (H idx) as (Hn & Hc & Ht).
  unfold succeeds, MessageSender.send_message. rewrite Hn, Hc, Ht. reflexivity.
Qed.

Lemma send_loop_step total idx r rs self :
  messages_sent self < session_limit config ->
  _check_circuit_breaker config self = false ->
  send_loop config world total idx (r :: rs) self
  = send_loop config world total (S idx) rs (process config world total idx r self).
Proof.
  intros Hlt Hcb. simpl. rewrite Hcb.
  destruct (Z.leb_spec (session_limit config) (messages_sent self)); [lia|reflexivity].
Qed.

Lemma breaker_closed_at_zero self :
  (enable_circuit_breaker config = true -> 0 < max_consecutive_failures config) ->
  consecutive_failures self = 0 ->
  _check_circuit_breaker config self = false.
Proof.
  intros Hpos Hz. unfold _check_circuit_breaker.
  destruct (enable_circuit_breaker config); [|reflexivity]. simpl.
  rewrite Hz. apply Z.leb_gt. apply Hpos. reflexivity.
Qed.

(** C2.  The failure counter starts at 0; a pass through the loop body sets
    it to 0 when the delivery succeeded and adds 1 when it failed; it is
    never negative during or after the loop; the breaker test answers false
    when the breaker is disabled and otherwise answers true exactly when the
    counter has reached [max_consecutive_failures]. *)
Theorem circuit_breaker_counter :
  consecutive_failures init = 0
  /\ (forall total idx r self,
        consecutive_failures (process config world total idx r self)
        = if succeeds config (world idx) r self
          then 0 else consecutive_failures self + 1)
  /\ (forall total idx rs self,
        0 <= consecutive_failures self ->
        0 <= consecutive_failures (send_loop config world total idx rs self))
  /\ (forall rs, message_templates config <> [] ->
        exists final, _send_messages config world rs init = Ret final
                      /\ 0 <= consecutive_failures final)
  /\ (forall self,
        (enable_circuit_breaker config = false ->
         _check_circuit_breaker config self = false)
        /\ (enable_circuit_breaker config = true ->
            (_check_circuit_breaker config self = true
             <-> max_consecutive_failures config <= consecutive_failures self))).
Proof.
  split; [reflexivity|]. split; [intros; apply process_cf|].
  split; [intros; apply send_loop_cf_nonneg; assumption|]. split.
  - intros rs Hne. unfold _send_messages.
    destruct (message_templates config); [contradiction|].
    eexists. split; [reflexivity|]. apply send_loop_cf_nonneg. simpl. lia.
  - intros self. unfold _check_circuit_breaker. split; intros ->; simpl.
    + reflexivity.
    + apply Z.leb_le.
Qed.

(** C3.  Once [messages_sent] has reached [session_limit] the loop does
    nothing more: it leaves the state (log and trace included) as it is, so
    the recipients that remain are neither attempted nor logged, and the
    count of sent messages never passes the limit.  With five recipients, a
    limit of three and every attempt succeeding, exactly the first three
    are attempted and logged. *)
Theorem session_limit_stops_sending :
  (forall total idx rs self,
     session_limit config <= messages_sent self ->
     send_loop config world total idx rs self = self)
  /\ (forall total idx pre post self,
        session_limit config
          <= messages_sent (send_loop config world total idx pre self) ->
        send_loop config world total idx (pre ++ post)%list self
        = send_loop config world total idx pre self)
  /\ (forall total idx rs self,
        messages_sent (send_loop config world total idx rs self)
        <= Z.max (session_limit config) (messages_sent self))
  /\ (forall rs,
        List.length rs = 5%nat -> session_limit config = 3 ->
        message_templates config <> [] ->
        (enable_circuit_breaker config = true -> 0 < max_consecutive_failures config) ->
        all_succeed world ->
        exists final,
          _send_messages config world rs init = Ret final
          /\ attempted (trace final) = [1; 2; 3]%nat
          /\ map log_status (logs final) = [sent; sent; sent]
          /\ map recipient_name (logs final) = map Recipient.full_name (firstn 3 rs)
          /\ messages_sent final = 3).
Proof.
  split; [intros; apply send_loop_stops; assumption|].
  split; [intros; apply send_loop_prefix; assumption|].
  split; [intros; apply send_loop_sent_le|].
  intros rs Hlen Hlimit Hne Hpos Hall.
  destruct rs as [|a [|b [|c [|d [|e [|? ?]]]]]]; try discriminate Hlen.
  unfold _send_messages. destruct (message_templates config) eqn:Et; [contradiction|].
  clear Et.
  eexists. split; [reflexivity|].
  assert (Hok : forall idx r self, succeeds config (world idx) r self = true)
    by (intros; apply all_succeed_succeeds, Hall).
  rewrite send_loop_step, process_success
    by (try apply Hok; try (apply breaker_closed_at_zero; [exact Hpos|reflexivity]);
        simpl; lia).
  rewrite send_loop_step, process_success
    by (try apply Hok; try (apply breaker_closed_at_zero; [exact Hpos|reflexivity]);
        simpl; lia).
  rewrite send_loop_step, process_success
    by (try apply Hok; try (apply breaker_closed_at_zero; [exact Hpos|reflexivity]);
        simpl; lia).
  rewrite send_loop_stops by (simpl; lia).
  simpl. repeat split; reflexivity.
Qed.

(** C7.  The trace of a pass through the loop body is the call of
    [send_message] followed by a human delay exactly when that call
    succeeded and the position is below the number of recipients.  Over the
    whole loop: a human delay is recorded for position [i] if and only if
    the delivery to the recipient at position [i] succeeded and [i] is not
    the last position; positions are those of the recipient list. *)
Theorem human_delay_only_after_success_before_last :
  (forall total idx r self,
     trace (process config world total idx r self)
     = (trace self ++
          SendMessage idx r (succeeds config (world idx) r self)
            :: (if succeeds config (world idx) r self && (idx <? total)%nat
                then [HumanDelay idx] else []))%list)
  /\ (forall rs, message_templates config <> [] ->
        exists final,
          _send_messages config world rs init = Ret final
          /\ (forall i, In (HumanDelay i) (trace final) <->
                (exists r, In (SendMessage i r true) (trace final))
                /\ (i < List.length rs)%nat)
          /\ (forall i r b, In (SendMessage i r b) (trace final) ->
                (1 <= i)%nat /\ nth_error rs (i - 1) = Some r)).
Proof.
  split; [intros; apply process_trace|].
  intros rs Hne. unfold _send_messages.
  destruct (message_templates config); [contradiction|].
  eexists. split; [reflexivity|].
  change (mk (consecutive_failures init) 0 (logs init) (trace init)) with init.
  match goal with
  | |- context [send_loop ?c ?w ?t ?i ?l ?s] =>
      destruct (send_loop_trace t l i s) as (block & E & Hd & Hs)
  end.
  change (trace init) with (@nil event) in E. rewrite app_nil_l in E.
  rewrite E. split; assumption.
Qed.

End SendLoop.

Section SendLoopWitnesses.

Import OutreachOrchestrator.
Local Open Scope Z_scope.

Lemma circuit_breaker_counter_witness :
  0 <= consecutive_failures
         (send_loop Demo.config Demo.second_fails 2 1 [Demo.john; Demo.jane] init)
  /\ _check_circuit_breaker Demo.config (mk 3 0 [] []) = true.
Proof.
  destruct (circuit_breaker_counter Demo.config Demo.second_fails)
    as (_ & _ & Hnonneg & _ & Hopen).
  split.
  - apply Hnonneg. simpl. lia.
  - apply (proj2 (Hopen (mk 3 0 [] []))); [reflexivity | simpl; lia].
Defined.

Lemma session_limit_stops_sending_witness :
  exists final,
    _send_messages Demo.config Demo.always_ok
      [Demo.john; Demo.jane; Demo.john; Demo.jane; Demo.john] init = Ret final
    /\ attempted (trace final) = [1; 2; 3]%nat
    /\ List.length (logs final) = 3%nat.
Proof.
  destruct (session_limit_stops_sending Demo.config Demo.always_ok)
    as (_ & _ & _ & H).
  destruct (H [Demo.john; Demo.jane; Demo.john; Demo.jane; Demo.john])
    as (final & Hret & Hatt & Hlog & _).
  - reflexivity.
  - reflexivity.
  - discriminate.
  - intros _. simpl. lia.
  - intros i. repeat split.
  - exists final. split; [exact Hret|]. split; [exact Hatt|].
    rewrite <- (length_map log_status), Hlog. reflexivity.
Defined.

Lemma human_delay_only_after_success_before_last_witness :
  exists final,
    _send_messages Demo.config Demo.second_fails [Demo.john; Demo.jane; Demo.john] init
      = Ret final
    /\ (In (HumanDelay 1) (trace final)
        /\ ~ In (HumanDelay 2) (trace final)
        /\ ~ In (HumanDelay 3) (trace final)).
Proof.
  destruct (human_delay_only_after_success_before_last Demo.config Demo.second_fails)
    as (_ & H).
  destruct (H [Demo.john; Demo.jane; Demo.john]) as (final & Hret & Hiff & _).
  - discriminate.
  - exists final. split; [exact Hret|].
    injection Hret as <-. split; [|split].
    + vm_compute. tauto.
    + vm_compute. intros [E | [E | [E | [E | []]]]]; discriminate.
    + intros Hin. apply Hiff in Hin. destruct Hin as [_ Hlt]. simpl in Hlt. lia.
Defined.

End SendLoopWitnesses.

(** * Recipient source *)

Section RecipientSource.

Import CSVHandler.
Local Open Scope string_scope.
Local Open Scope list_scope.
Local Open Scope nat_scope.

Lemma accepted_rejected_length (l : list (Recipient.t + string)) :
  List.length (accepted l) + List.length (rejected l) = List.length l.
Proof.
  induction l as [|[r | e] l IH]; simpl; lia.
Qed.

Lemma parse_all_length : forall (l : list Row) (n : nat),
  List.length (parse_all n l) = List.length l.
Proof.
  induction l as [|row l IH]; intros n; simpl; [reflexivity | rewrite IH; reflexivity].
Qed.

Lemma accepted_firstn_S : forall (l : list (Recipient.t + string)) (j : nat),
  List.length (accepted (firstn (S j) l)) <= S (List.length (accepted (firstn j l))).
Proof.
  induction l as [|[r | e] l IH]; intros j; [simpl; lia | |].
  - destruct j as [|j]; [destruct l; simpl; lia|].
    specialize (IH j). simpl in *. lia.
  - destruct j as [|j]; [destruct l; simpl; lia|].
    specialize (IH j). simpl in *. lia.
Qed.

(** Every accepted recipient went through [__post_init__] without error. *)
Lemma _parse_row_inl (row : Row) (n : nat) (r : Recipient.t) :
  _parse_row row n = inl r -> Recipient.__post_init__ r = Ret tt.
Proof.
  unfold _parse_row. destruct (cleaned row) as [d | e]; simpl.
  - unfold Recipient.new.
    destruct (Recipient.__post_init__ _) as [[] | e] eqn:E; simpl.
    + intros H. injection H as <-. exact E.
    + destruct e; discriminate.
  - destruct e; discriminate.
Qed.

Lemma accepted_valid : forall (l : list Row) (idx : nat) (k : nat) (r : Recipient.t),
  In r (accepted (firstn k (parse_all idx l))) -> Recipient.__post_init__ r = Ret tt.
Proof.
  induction l as [|row l IH]; intros idx k r; [destruct k; intros []|].
  destruct k as [|k]; [intros []|]. simpl.
  destruct (_parse_row row idx) as [r' | e] eqn:E; simpl.
  - intros [<- | Hin]; [eapply _parse_row_inl, E | eapply IH, Hin].
  - apply IH.
Qed.

Lemma load_rows_spec (self : t) : forall (todo : list Row) (idx : nat)
    (recipients : list Recipient.t) (errors : list string),
  exists k : nat,
    k <= List.length todo
    /\ load_rows self idx todo recipients errors
       = (recipients ++ accepted (firstn k (parse_all idx todo)),
          errors ++ rejected (firstn k (parse_all idx todo)))
    /\ (forall j, j < k ->
          (Z.of_nat (List.length
             (recipients ++ accepted (firstn j (parse_all idx todo))))
           < max_connections self)%Z)
    /\ (k = List.length todo
        \/ (max_connections self
            <= Z.of_nat (List.length
                 (recipients ++ accepted (firstn k (parse_all idx todo)))))%Z).
Proof.
  induction todo as [|row todo IH]; intros idx recipients errors.
  - exists 0. simpl. rewrite !app_nil_r.
    split; [lia|]. split; [reflexivity|]. split; [|left; reflexivity].
    intros j Hj. lia.
  - simpl.
    destruct (Z.leb_spec (max_connections self) (Z.of_nat (List.length recipients)))
      as [Hfull | Hroom].
    + exists 0. simpl. rewrite !app_nil_r.
      split; [lia|]. split; [reflexivity|]. split; [|right; exact Hfull].
      intros j Hj. lia.
    + destruct (_parse_row row idx) as [r | e].
      * destruct (IH (S idx) (recipients ++ [r]) errors) as (k & Hk & E & Hlt & Hend).
        exists (S k). simpl. rewrite <- !app_assoc in *. simpl in *.
        split; [lia|]. split; [exact E|].
        split; [|destruct Hend; [left; lia | right; assumption]].
        intros [|j] Hj; simpl; [rewrite app_nil_r; exact Hroom|].
        specialize (Hlt j ltac:(lia)). rewrite <- ?app_assoc in Hlt. exact Hlt.
      * destruct (IH (S idx) recipients (errors ++ [e])) as (k & Hk & E & Hlt & Hend).
        exists (S k). simpl. rewrite <- !app_assoc in *. simpl in *.
        split; [lia|]. split; [exact E|].
        split; [|destruct Hend; [left; lia | right; assumption]].
        intros [|j] Hj; simpl; [rewrite app_nil_r; exact Hroom|].
        specialize (Hlt j ltac:(lia)). rewrite <- ?app_assoc in Hlt. exact Hlt.
Qed.

(** C9, as stated, fails: a malformed record that comes after the cutoff
    yields no error message, and a file without the required columns yields
    no pair at all. *)
Lemma load_connections_malformed_after_cutoff :
  ~ (forall (self : t) (csv : CsvFile) recipients errors,
       load_connections self (Some csv) = Ret (recipients, errors) ->
       forall (j : nat) (row : Row) (msg : string),
         nth_error (rows csv) j = Some row ->
         _parse_row row (S j) = inr msg ->
         In msg errors)
  /\ load_connections (mk "data/connections.csv" 10)
       (Some (mkCsv ["name"; "url"] [])) =
     Raise (ValueError "CSV must contain headers: first_name, last_name, profile_url").
Proof.
  split; [|reflexivity].
  intros H.
  specialize (H (mk "data/connections.csv" 1)
                (mkCsv Demo.header [Demo.john_row; Demo.nameless_row])
                _ _ eq_refl 1 Demo.nameless_row _ eq_refl eq_refl).
  vm_compute in H. exact H.
Qed.

(** C9, amended.  For a file with the required columns, [load_connections]
    returns a pair; it reads the rows in order up to a cutoff [k], which is
    reached at the end of the file or as soon as [max_connections]
    recipients have been accepted; every row before the cutoff that fails
    to parse contributes exactly its one error message and no recipient,
    every row before the cutoff that parses contributes its recipient, in
    order; every accepted recipient passed the construction checks; and the
    number of recipients is at most [max_connections] (none when that is
    not positive). *)
Theorem load_connections_collects (self : t) (csv : CsvFile) :
  has_required_headers (fieldnames csv) = true ->
  exists (recipients : list Recipient.t) (errors : list string) (k : nat),
    load_connections self (Some csv) = Ret (recipients, errors)
    /\ k <= List.length (rows csv)
    /\ recipients = accepted (firstn k (parse_all 1 (rows csv)))
    /\ errors = rejected (firstn k (parse_all 1 (rows csv)))
    /\ List.length recipients + List.length errors = k
    /\ (forall j, j < k ->
          (Z.of_nat (List.length (accepted (firstn j (parse_all 1 (rows csv)))))
           < max_connections self)%Z)
    /\ (k = List.length (rows csv)
        \/ (max_connections self <= Z.of_nat (List.length recipients))%Z)
    /\ (Z.of_nat (List.length recipients) <= Z.max 0 (max_connections self))%Z
    /\ (forall r, In r recipients -> Recipient.__post_init__ r = Ret tt).
Proof.
  intros Hh. unfold load_connections. rewrite Hh. simpl.
  destruct (load_rows_spec self (rows csv) 1 [] []) as (k & Hk & E & Hlt & Hend).
  simpl in *. rewrite E.
  exists (accepted (firstn k (parse_all 1 (rows csv)))),
         (rejected (firstn k (parse_all 1 (rows csv)))), k.
  pose proof (parse_all_length (rows csv) 1) as Hlen.
  split; [reflexivity|]. split; [exact Hk|]. split; [reflexivity|].
  split; [reflexivity|]. split; [|split; [exact Hlt|split; [exact Hend|split]]].
  - rewrite accepted_rejected_length, length_firstn, Hlen. lia.
  - destruct k as [|j]; [simpl; lia|].
    pose proof (Hlt j ltac:(lia)).
    pose proof (accepted_firstn_S (parse_all 1 (rows csv)) j). lia.
  - intros r. apply accepted_valid.
Qed.

Lemma load_connections_collects_witness :
  exists recipients errors,
    load_connections (mk "data/connections.csv" 10)
      (Some (mkCsv Demo.header
               [Demo.john_row; Demo.nameless_row; Demo.bad_url_row; Demo.jane_row]))
    = Ret (recipients, errors)
    /\ List.length recipients = 2
    /\ errors = ["Row 2: First name is required";
                 "Row 3: Invalid LinkedIn profile URL: invalid-url"].
Proof.
  destruct (load_connections_collects (mk "data/connections.csv" 10)
              (mkCsv Demo.header
                 [Demo.john_row; Demo.nameless_row; Demo.bad_url_row; Demo.jane_row]))
    as (recipients & errors & k & Hret & _).
  - reflexivity.
  - exists recipients, errors. split; [exact Hret|].
    vm_compute in Hret. injection Hret as <- <-. split; reflexivity.
Defined.

End RecipientSource.

(** * Template engine *)

Section TemplateEngine.

Import PlaceholderReplacer.
Local Open Scope string_scope.
Local Open Scope list_scope.
Local Open Scope nat_scope.

Local Arguments ascii_dec : simpl never.

Lemma str_app_assoc (a b c : string) : ((a ++ b) ++ c = a ++ (b ++ c))%string.
Proof.
  induction a as [|x a IH]; simpl; [reflexivity | rewrite IH; reflexivity].
Qed.

Lemma str_app_length (a b : string) :
  String.length (a ++ b)%string = String.length a + String.length b.
Proof.
  induction a as [|x a IH]; simpl; [reflexivity | rewrite IH; reflexivity].
Qed.

Lemma word_char_not_lbrace (c : ascii) :
  Str.is_word_char c = true -> Ascii.eqb c Str.lbrace = false.
Proof.
  destruct (Ascii.eqb_spec c Str.lbrace) as [-> | _]; [discriminate | reflexivity].
Qed.


Lemma word_no_lbrace (m : string) :
  all_chars Str.is_word_char m = true -> no_lbrace m = true.
Proof.
  unfold no_lbrace. induction m as [|c m IH]; simpl; [reflexivity|].
  intros H. apply andb_prop in H. destruct H as [Hc Hm].
  rewrite (word_char_not_lbrace c Hc), (IH Hm). reflexivity.
Qed.


(** A pattern [{n}] is a prefix of the text [m}...] after an opening brace
    exactly when the two names are equal. *)
Lemma prefix_name : forall (n m rest : string),
  all_chars Str.is_word_char n = true ->
  all_chars Str.is_word_char m = true ->
  prefix (n ++ "}")%string (m ++ String "}" rest)%string = String.eqb m n.
Proof.
  induction n as [|a n IH]; intros m rest Hn Hm.
  - destruct m as [|c m]; simpl; [destruct rest; reflexivity|].
    simpl in Hm. apply andb_prop in Hm. destruct Hm as [Hc _].
    destruct (ascii_dec "}" c) as [<- | _]; [discriminate Hc | reflexivity].
  - simpl in Hn. apply andb_prop in Hn. destruct Hn as [Ha Hn].
    destruct m as [|c m]; simpl.
    + destruct (ascii_dec a "}") as [-> | _]; [discriminate Ha | reflexivity].
    + simpl in Hm. apply andb_prop in Hm. destruct Hm as [Hc Hm].
      destruct (ascii_dec a c) as [-> | Hne].
      * rewrite Ascii.eqb_refl. apply IH; assumption.
      * destruct (Ascii.eqb_spec c a) as [-> | _]; [contradiction | reflexivity].
Qed.

Lemma prefix_pattern (n m rest : string) :
  all_chars Str.is_word_char n = true ->
  all_chars Str.is_word_char m = true ->
  prefix (pattern n) (pattern m ++ rest)%string = String.eqb m n.
Proof.
  intros Hn Hm. unfold pattern. simpl.
  rewrite str_app_assoc. simpl. apply prefix_name; assumption.
Qed.

(** *** One call of [str.replace] on a tokenised template *)

Lemma replace_from_skip (old new : string) : forall (s1 s2 : string),
  Str.replace_from old new (String.length s1) (s1 ++ s2)%string
  = Str.replace_from old new 0 s2.
Proof.
  induction s1 as [|c s1 IH]; intros s2; simpl; [|apply IH].
  destruct s2; reflexivity.
Qed.

Lemma replace_from_plain (n new : string) : forall (text rest : string),
  no_lbrace text = true ->
  Str.replace_from (pattern n) new 0 (text ++ rest)%string
  = (text ++ Str.replace_from (pattern n) new 0 rest)%string.
Proof.
  induction text as [|c text IH]; intros rest H; simpl; [reflexivity|].
  unfold no_lbrace in H. simpl in H. apply andb_prop in H. destruct H as [Hc Ht].
  destruct (ascii_dec "{" c) as [<- | _]; [discriminate Hc|].
  f_equal. apply IH. exact Ht.
Qed.

Lemma replace_from_hole (n new m rest : string) :
  all_chars Str.is_word_char n = true ->
  all_chars Str.is_word_char m = true ->
  Str.replace_from (pattern n) new 0 (pattern m ++ rest)%string
  = ((if String.eqb m n then new else pattern m)
     ++ Str.replace_from (pattern n) new 0 rest)%string.
Proof.
  intros Hn Hm.
  pose proof (prefix_pattern n m rest Hn Hm) as Hp.
  unfold pattern in *. simpl in Hp |- *. rewrite Hp.
  destruct (String.eqb_spec m n) as [-> | Hne].
  - f_equal. rewrite str_app_assoc, Nat.sub_0_r.
    rewrite <- (replace_from_skip _ _ (n ++ "}")%string rest).
    rewrite str_app_assoc. reflexivity.
  - simpl. f_equal. rewrite !str_app_assoc.
    change (String "{" (n ++ "}")) with (pattern n).
    rewrite replace_from_plain by (apply word_no_lbrace, Hm).
    rewrite replace_from_plain by reflexivity. reflexivity.
Qed.

Lemma replace_render (n new : string) :
  all_chars Str.is_word_char n = true ->
  forall tks : list token,
    forallb token_ok tks = true ->
    Str.replace (pattern n) new (render tks)
    = render (map (fill_one n new) tks).
Proof.
  intros Hn. unfold Str.replace.
  change (Str.is_empty (pattern n)) with false. cbv iota.
  induction tks as [|[text | m] tks IH]; intros Hok;
    cbn [render render_token map fill_one forallb token_ok] in *; [reflexivity | |].
  - apply andb_prop in Hok. destruct Hok as [Ht Hok].
    rewrite replace_from_plain by exact Ht. rewrite IH by exact Hok. reflexivity.
  - apply andb_prop in Hok. destruct Hok as [Hm Hok].
    apply andb_prop in Hm. destruct Hm as [_ Hm].
    rewrite replace_from_hole by assumption. rewrite IH by exact Hok.
    destruct (String.eqb m n); reflexivity.
Qed.

Lemma fill_one_ok (n v : string) (tks : list token) :
  no_lbrace v = true -> forallb token_ok tks = true ->
  forallb token_ok (map (fill_one n v) tks) = true.
Proof.
  intros Hv. induction tks as [|[text | m] tks IH]; simpl; [reflexivity | |];
    intros H; apply andb_prop in H; destruct H as [H1 H2].
  - rewrite H1. apply IH, H2.
  - destruct (String.eqb m n); simpl; [rewrite Hv | rewrite H1]; apply IH, H2.
Qed.

Lemma fill_after_one (n v : string) (reps : list (string * string)) (tks : list token) :
  fill reps (map (fill_one n v) tks) = fill ((n, v) :: reps) tks.
Proof.
  induction tks as [|[text | m] tks IH]; simpl; [reflexivity | |].
  - rewrite IH. reflexivity.
  - rewrite IH. destruct (String.eqb m n); reflexivity.
Qed.

Lemma fill_nil (tks : list token) : fill [] tks = render tks.
Proof.
  induction tks as [|[text | m] tks IH]; simpl; rewrite ?IH; reflexivity.
Qed.

(** The whole loop of [replace_placeholders], for any replacement list
    whose names are words and whose values have no opening brace. *)
Lemma sequential_fill : forall (reps : list (string * string)) (tks : list token),
  forallb (fun pv => all_chars Str.is_word_char (fst pv)) reps = true ->
  forallb (fun pv => no_lbrace (snd pv)) reps = true ->
  forallb token_ok tks = true ->
  fold_left (fun message pv => Str.replace (pattern (fst pv)) (snd pv) message)
    reps (render tks)
  = fill reps tks.
Proof.
  induction reps as [|[n v] reps IH]; intros tks Hn Hv Hok; simpl in *.
  - symmetry. apply fill_nil.
  - apply andb_prop in Hn. destruct Hn as [Hn Hns].
    apply andb_prop in Hv. destruct Hv as [Hv Hvs].
    rewrite replace_render by assumption.
    rewrite IH by (try assumption; apply fill_one_ok; assumption).
    apply fill_after_one.
Qed.

(** *** The one-pass substitution on a tokenised template *)

Lemma match_any_plain : forall (reps : list (string * string)) (c : ascii) (s : string),
  Ascii.eqb c Str.lbrace = false -> match_any reps (String c s) = None.
Proof.
  induction reps as [|[n v] reps IH]; intros c s Hc; [reflexivity|].
  cbn [match_any]. unfold pattern at 1. cbn [append prefix].
  destruct (ascii_dec "{" c) as [<- | _]; [discriminate Hc | apply IH, Hc].
Qed.

Lemma match_any_hole : forall (reps : list (string * string)) (m rest : string),
  forallb (fun pv => all_chars Str.is_word_char (fst pv)) reps = true ->
  all_chars Str.is_word_char m = true ->
  match_any reps (pattern m ++ rest)%string
  = match lookup m reps with
    | Some v => Some (v, String.length (pattern m))
    | None => None
    end.
Proof.
  induction reps as [|[n v] reps IH]; intros m rest Hn Hm; [reflexivity|].
  cbn [forallb fst] in Hn. apply andb_prop in Hn. destruct Hn as [Hn Hns].
  cbn [match_any lookup]. rewrite prefix_pattern by assumption.
  destruct (String.eqb_spec m n) as [-> | _]; [reflexivity | apply IH; assumption].
Qed.

Lemma simultaneous_skip (reps : list (string * string)) : forall (s1 s2 : string),
  simultaneous_from reps (String.length s1) (s1 ++ s2)%string
  = simultaneous_from reps 0 s2.
Proof.
  induction s1 as [|c s1 IH]; intros s2; simpl; [|apply IH].
  destruct s2; reflexivity.
Qed.

Lemma simultaneous_plain (reps : list (string * string)) : forall (text rest : string),
  no_lbrace text = true ->
  simultaneous_from reps 0 (text ++ rest)%string
  = (text ++ simultaneous_from reps 0 rest)%string.
Proof.
  induction text as [|c text IH]; intros rest H; [reflexivity|].
  unfold no_lbrace in H. cbn [all_chars] in H.
  apply andb_prop in H. destruct H as [Hc Ht].
  apply negb_true_iff in Hc.
  cbn [append simultaneous_from]. rewrite match_any_plain by exact Hc.
  f_equal. apply IH, Ht.
Qed.

Lemma simultaneous_hole (reps : list (string * string)) (m rest : string) :
  forallb (fun pv => all_chars Str.is_word_char (fst pv)) reps = true ->
  all_chars Str.is_word_char m = true ->
  simultaneous_from reps 0 (pattern m ++ rest)%string
  = (fill_token reps (Hole m) ++ simultaneous_from reps 0 rest)%string.
Proof.
  intros Hn Hm. pose proof (match_any_hole reps m rest Hn Hm) as Hmatch.
  unfold pattern in Hmatch |- *. cbn [append] in Hmatch |- *.
  cbn [simultaneous_from fill_token]. rewrite Hmatch.
  destruct (lookup m reps) as [v|].
  - f_equal. cbn [String.length]. rewrite Nat.sub_succ, Nat.sub_0_r.
    apply simultaneous_skip.
  - unfold pattern. cbn [append]. f_equal. rewrite !str_app_assoc.
    rewrite simultaneous_plain by (apply word_no_lbrace, Hm).
    rewrite simultaneous_plain by reflexivity. reflexivity.
Qed.

Lemma simultaneous_render (reps : list (string * string)) :
  forallb (fun pv => all_chars Str.is_word_char (fst pv)) reps = true ->
  forall tks : list token,
    forallb token_ok tks = true ->
    simultaneous_from reps 0 (render tks) = fill reps tks.
Proof.
  intros Hn. induction tks as [|[text | m] tks IH]; intros Hok;
    cbn [render render_token fill forallb token_ok] in *; [reflexivity | |].
  - apply andb_prop in Hok. destruct Hok as [Ht Hok].
    rewrite simultaneous_plain by exact Ht. rewrite IH by exact Hok. reflexivity.
  - apply andb_prop in Hok. destruct Hok as [Hm Hok].
    apply andb_prop in Hm. destruct Hm as [_ Hm].
    rewrite simultaneous_hole by assumption. rewrite IH by exact Hok. reflexivity.
Qed.

(** *** [re.findall] on a tokenised template *)

Lemma span_word : forall (m rest : string),
  all_chars Str.is_word_char m = true ->
  Str.span Str.is_word_char (m ++ String "}" rest)%string = (m, String "}" rest).
Proof.
  induction m as [|c m IH]; intros rest H; [reflexivity|].
  cbn [all_chars] in H. apply andb_prop in H. destruct H as [Hc Hm].
  cbn [append Str.span]. rewrite Hc, IH by exact Hm. reflexivity.
Qed.

Lemma findall_skip : forall (s1 s2 : string),
  Str.findall_from (String.length s1) (s1 ++ s2)%string = Str.findall_from 0 s2.
Proof.
  induction s1 as [|c s1 IH]; intros s2; simpl; [|apply IH].
  destruct s2; reflexivity.
Qed.

Lemma findall_plain : forall (text rest : string),
  no_lbrace text = true ->
  Str.findall_from 0 (text ++ rest)%string = Str.findall_from 0 rest.
Proof.
  induction text as [|c text IH]; intros rest H; [reflexivity|].
  unfold no_lbrace in H. cbn [all_chars] in H.
  apply andb_prop in H. destruct H as [Hc Ht]. apply negb_true_iff in Hc.
  cbn [append Str.findall_from]. rewrite Hc. apply IH, Ht.
Qed.

Lemma findall_hole (m rest : string) :
  Str.is_empty m = false -> all_chars Str.is_word_char m = true ->
  Str.findall_from 0 (pattern m ++ rest)%string = m :: Str.findall_from 0 rest.
Proof.
  intros Hne Hm. unfold pattern. cbn [append Str.findall_from].
  change (Ascii.eqb "{" Str.lbrace) with true. cbv iota.
  rewrite str_app_assoc. cbn [append]. rewrite span_word by exact Hm.
  destruct m as [|a w]; [discriminate Hne|].
  change (Ascii.eqb "}" Str.rbrace) with true. cbv iota. f_equal.
  rewrite <- (findall_skip (String a w ++ "}")%string rest).
  rewrite str_app_length, str_app_assoc. reflexivity.
Qed.

Lemma findall_render : forall tks : list token,
  forallb token_ok tks = true ->
  Str.findall_placeholders (render tks) = holes tks.
Proof.
  unfold Str.findall_placeholders.
  induction tks as [|[text | m] tks IH]; intros Hok;
    cbn [render render_token holes forallb token_ok] in *; [reflexivity | |].
  - apply andb_prop in Hok. destruct Hok as [Ht Hok].
    rewrite findall_plain by exact Ht. apply IH, Hok.
  - apply andb_prop in Hok. destruct Hok as [Hm Hok].
    apply andb_prop in Hm. destruct Hm as [Hne Hm]. apply negb_true_iff in Hne.
    rewrite findall_hole by assumption. rewrite IH by exact Hok. reflexivity.
Qed.

Lemma names_are_words (r : Recipient.t) :
  forallb (fun pv => all_chars Str.is_word_char (fst pv)) (replacements r) = true.
Proof. reflexivity. Qed.

Lemma unsupported_lookup (r : Recipient.t) (name : string) :
  supported name = false -> lookup name (replacements r) = None.
Proof.
  unfold supported, SUPPORTED_PLACEHOLDERS, replacements. cbn [existsb lookup].
  intros H. repeat (apply orb_false_elim in H; destruct H as [-> H]). reflexivity.
Qed.


(** C8, as stated, fails: a value that is itself placeholder-shaped is
    substituted again by a later pass, and a value without any brace can
    complete a placeholder that the template only held in pieces. *)
Lemma replace_placeholders_rescans_values :
  ~ (forall (template : string) (r : Recipient.t),
       Recipient.__post_init__ r = Ret tt ->
       replace_placeholders template r = simultaneous_substitution template r)
  /\ (replace_placeholders "{last{first_name}name}" Demo.underscore = "Doe"
      /\ simultaneous_substitution "{last{first_name}name}" Demo.underscore
         = "{last_name}").
Proof.
  split; [|split; reflexivity].
  intros H. specialize (H "Hello {first_name}" Demo.echo eq_refl).
  vm_compute in H. discriminate H.
Qed.

(** C8, amended.  For a template in which every opening brace starts a
    placeholder [{name}] ([name] a non-empty run of word characters) and a
    recipient whose substituted values hold no opening brace: the engine
    returns the template with each placeholder of the vocabulary replaced by
    the recipient's field, or by the fixed default phrase when an optional
    field is absent, and every other placeholder as it was written; this is
    also the one-pass substitution; validation returns exactly the
    placeholders outside the vocabulary, and does so for every template. *)
Theorem template_engine_fills_placeholders (tks : list token) (r : Recipient.t) :
  forallb token_ok tks = true ->
  forallb (fun pv => no_lbrace (snd pv)) (replacements r) = true ->
  replace_placeholders (render tks) r = fill (replacements r) tks
  /\ simultaneous_substitution (render tks) r = fill (replacements r) tks
  /\ validate_placeholders (render tks)
     = filter (fun p => negb (supported p)) (holes tks)
  /\ (forall template p,
        In p (validate_placeholders template) <->
        In p (Str.findall_placeholders template) /\ ~ In p SUPPORTED_PLACEHOLDERS)
  /\ (forall name, supported name = false ->
        fill_token (replacements r) (Hole name) = pattern name)
  /\ (fill_token (replacements r) (Hole "first_name") = Recipient.first_name r
      /\ fill_token (replacements r) (Hole "last_name") = Recipient.last_name r
      /\ fill_token (replacements r) (Hole "company")
         = Str.or_default (Recipient.company r) "your company"
      /\ fill_token (replacements r) (Hole "position")
         = Str.or_default (Recipient.position r) "your field"
      /\ fill_token (replacements r) (Hole "location")
         = Str.or_default (Recipient.location r) "your area")
  /\ (Str.or_default None "your company" = "your company"
      /\ Str.or_default (Some "") "your company" = "your company"
      /\ forall s d, Str.is_empty s = false -> Str.or_default (Some s) d = s).
Proof.
  intros Hok Hv.
  split; [apply sequential_fill; [apply names_are_words | exact Hv | exact Hok]|].
  split; [apply simultaneous_render; [apply names_are_words | exact Hok]|].
  split; [unfold validate_placeholders; rewrite findall_render by exact Hok; reflexivity|].
  split; [|split; [|split]].
  - intros template p. unfold validate_placeholders. rewrite filter_In.
    apply and_iff_compat_l. unfold supported. rewrite negb_true_iff.
    split.
    + intros Hf Hin. apply not_true_iff_false in Hf. apply Hf.
      apply existsb_exists. exists p. split; [exact Hin | apply String.eqb_refl].
    + intros Hnin. apply not_true_iff_false. intros Hex.
      apply existsb_exists in Hex. destruct Hex as (q & Hq & Heq).
      apply String.eqb_eq in Heq. subst q. contradiction.
  - intros name Hs. cbn [fill_token]. rewrite unsupported_lookup by exact Hs.
    reflexivity.
  - repeat split.
  - repeat split. intros s d Hs. unfold Str.or_default. rewrite Hs. reflexivity.
Qed.

Lemma template_engine_fills_placeholders_witness :
  replace_placeholders "Hi {first_name}, {nickname} at {company}}." Demo.plain
  = "Hi John, {nickname} at your company}."
  /\ validate_placeholders "Hi {first_name}, {nickname} at {company}}." = ["nickname"].
Proof.
  destruct (template_engine_fills_placeholders Demo.greeting Demo.plain)
    as (Hfill & _ & Hvalid & _).
  - reflexivity.
  - reflexivity.
  - split; [exact Hfill | exact Hvalid].
Defined.

(** C10.  [replace_placeholders] is five successive calls of [str.replace],
    for [first_name], [last_name], [company], [position], [location] in
    that order, each on the output of the one before.  There is a valid
    recipient, with first name [{company}], for which the text brought in
    by the first call is replaced by the company in the third, so that the
    result differs from the one-pass substitution of the template. *)
Theorem substitution_is_sequential :
  (forall (template : string) (r : Recipient.t),
     replace_placeholders template r
     = Str.replace "{location}" (Str.or_default (Recipient.location r) "your area")
         (Str.replace "{position}" (Str.or_default (Recipient.position r) "your field")
            (Str.replace "{company}" (Str.or_default (Recipient.company r) "your company")
               (Str.replace "{last_name}" (Recipient.last_name r)
                  (Str.replace "{first_name}" (Recipient.first_name r) template)))))
  /\ (exists (template : string) (r : Recipient.t),
        Recipient.__post_init__ r = Ret tt
        /\ Recipient.first_name r = "{company}"
        /\ Recipient.company r = Some "Acme"
        /\ Str.replace "{first_name}" (Recipient.first_name r) template
           = "Hi {company}!"
        /\ replace_placeholders template r = "Hi Acme!"
        /\ simultaneous_substitution template r = "Hi {company}!"
        /\ replace_placeholders template r <> simultaneous_substitution template r).
Proof.
  split; [reflexivity|].
  exists "Hi {first_name}!", Demo.injected.
  repeat split; try reflexivity. vm_compute. discriminate.
Qed.

End TemplateEngine.

(** * Further properties: delay policy *)

Section DelayPolicyMore.

Import Throttler.
Local Open Scope Q_scope.

Lemma pow2_pos (n : Z) : 0 < pow2 n.
Proof.
  unfold pow2. destruct (Z.leb_spec 0 n) as [Hn | Hn].
  - change 0 with (inject_Z 0). rewrite <- Zlt_Qlt. apply Z.pow_pos_nonneg; lia.
  - apply Qinv_lt_0_compat. change 0 with (inject_Z 0). rewrite <- Zlt_Qlt.
    apply Z.pow_pos_nonneg; lia.
Qed.

Lemma pow2_succ (n : Z) : (0 <= n)%Z -> pow2 (n + 1) == 2 * pow2 n.
Proof.
  intros Hn. rewrite !pow2_nonneg by lia.
  rewrite Z.pow_add_r by lia. rewrite Z.mul_comm, inject_Z_mult. reflexivity.
Qed.



(** X2.  Below the cap each further attempt doubles the delay before
    jitter: when [base_delay * 2^(attempt+1)] is still at most [max_delay],
    the capped delay at [attempt + 1] is twice the one at [attempt]. *)
Theorem backoff_doubles_below_cap (attempt : Z) (base_delay max_delay : Q) :
  (0 <= attempt)%Z -> 0 < base_delay ->
  base_delay * inject_Z (2 ^ (attempt + 1)) <= max_delay ->
  backoff_raw (attempt + 1) base_delay max_delay
  == 2 * backoff_raw attempt base_delay max_delay.
Proof.
  intros Ha Hb Hcap. rewrite <- pow2_nonneg in Hcap by lia.
  pose proof (pow2_succ attempt Ha) as Hs. pose proof (pow2_pos attempt) as Hp.
  unfold backoff_raw. rewrite !py_min_is_Qmin.
  rewrite Q.min_l by exact Hcap.
  rewrite Q.min_l by (rewrite Hs in Hcap; nra).
  rewrite Hs. ring.
Qed.

Lemma backoff_doubles_below_cap_witness :
  backoff_raw 3 5 300 == 2 * backoff_raw 2 5 300.
Proof.
  apply (backoff_doubles_below_cap 2 5 300); [lia | reflexivity | discriminate].
Defined.

(** X3.  [human_delay] and [page_load_delay] need no ordered bounds: the
    value lies between the smaller and the larger of the two, and is the
    bound itself when both are equal. *)
Theorem delays_between_either_order (self : t) (u : Q) :
  unit_draw u ->
  (Qmin (min_delay self) (max_delay self) <= human_delay self u
     <= Qmax (min_delay self) (max_delay self))
  /\ (Qmin (page_load_min self) (page_load_max self) <= page_load_delay self u
        <= Qmax (page_load_min self) (page_load_max self))
  /\ (min_delay self == max_delay self -> human_delay self u == min_delay self)
  /\ (page_load_min self == page_load_max self ->
      page_load_delay self u == page_load_min self).
Proof.
  intros [H0 H1].
  assert (Hany : forall a b : Q, Qmin a b <= uniform a b u <= Qmax a b).
  { intros a b. unfold uniform. destruct (Qlt_le_dec b a) as [Hlt | Hle].
    - rewrite Q.min_r, Q.max_l by (apply Qlt_le_weak, Hlt). split; nra.
    - rewrite Q.min_l, Q.max_r by exact Hle. split; nra. }
  unfold human_delay, page_load_delay.
  split; [apply Hany|]. split; [apply Hany|].
  split; intros E; unfold uniform; rewrite E; ring.
Qed.

Lemma delays_between_either_order_witness :
  30 <= human_delay (mk 120 30 5 2 5) (1 # 4) <= 120.
Proof.
  destruct (delays_between_either_order (mk 120 30 5 2 5) (1 # 4)) as (H & _).
  - split; discriminate.
  - exact H.
Defined.

(** X4.  For a non-zero typing speed an empty message takes no time; for a
    positive speed and one and the same random draw a longer message never
    takes less time than a shorter one. *)
Theorem typing_delay_grows_with_length (self : t) (shorter longer : Z) (u : Q) :
  0 < typing_speed self -> unit_draw u -> (shorter <= longer)%Z ->
  exists d0 d1 d2 : Q,
    typing_delay self 0 u = Ret d0 /\ d0 == 0
    /\ typing_delay self shorter u = Ret d1
    /\ typing_delay self longer u = Ret d2
    /\ d1 <= d2.
Proof.
  intros Hs [H0 H1] Hle.
  assert (Hnz : ~ typing_speed self == 0)
    by (intros E; rewrite E in Hs; discriminate).
  unfold typing_delay. rewrite !truediv_nonzero by exact Hnz. cbn [bind].
  do 3 eexists. split; [reflexivity|]. split.
  - unfold Qdiv. change (inject_Z 0) with 0. ring.
  - split; [reflexivity|]. split; [reflexivity|].
    assert (Hdiv : inject_Z shorter / typing_speed self
                   <= inject_Z longer / typing_speed self).
    { unfold Qdiv. apply Qmult_le_compat_r.
      - rewrite <- Zle_Qle. exact Hle.
      - apply Qlt_le_weak, Qinv_lt_0_compat, Hs. }
    unfold uniform. nra.
Qed.

Lemma typing_delay_grows_with_length_witness :
  exists d1 d2 : Q,
    typing_delay default 10 (1 # 2) = Ret d1
    /\ typing_delay default 100 (1 # 2) = Ret d2
    /\ d1 <= d2.
Proof.
  destruct (typing_delay_grows_with_length default 10 100 (1 # 2))
    as (_ & d1 & d2 & _ & _ & E1 & E2 & Hle).
  - reflexivity.
  - split; discriminate.
  - lia.
  - exists d1, d2. auto.
Defined.

End DelayPolicyMore.

(** * Further properties: strings and recipients *)

Section RecipientMore.

Import PlaceholderReplacer.
Local Open Scope string_scope.
Local Open Scope list_scope.
Local Open Scope nat_scope.










(** *** The profile URL pattern *)


Lemma drop_prefix_same : forall (p rest : string),
  Str.drop_prefix p (p ++ rest)%string = Some rest.
Proof.
  induction p as [|a p IH]; intros rest; simpl; [reflexivity|].
  rewrite Ascii.eqb_refl. apply IH.
Qed.







(** *** Construction of a recipient *)




(** *** Rows and dictionaries *)













End RecipientMore.

(** * Further properties: loading the recipients *)

Section RecipientSourceMore.

Import CSVHandler.
Local Open Scope string_scope.
Local Open Scope list_scope.
Local Open Scope nat_scope.

Local Arguments ascii_dec : simpl never.

Lemma accepted_firstn_le : forall (l : list (Recipient.t + string)) (k : nat),
  List.length (accepted (firstn k l)) <= List.length (accepted l).
Proof.
  induction l as [|[r | e] l IH]; intros [|k]; simpl; try lia;
    specialize (IH k); lia.
Qed.

Lemma prefix_app : forall a b : string, prefix a (a ++ b)%string = true.
Proof.
  induction a as [|c a IH]; intros b; simpl; [destruct b; reflexivity|].
  destruct (ascii_dec c c) as [_ | Hne]; [apply IH | contradiction].
Qed.

Lemma _parse_row_error_prefix (row : Row) (n : nat) (e : string) :
  _parse_row row n = inr e ->
  prefix ("Row " ++ Str.of_nat n ++ ": ")%string e = true.
Proof.
  assert (Hp : forall a b c d : string,
            prefix (a ++ b ++ c)%string (a ++ b ++ c ++ d)%string = true).
  { intros a b c d.
    replace (a ++ b ++ c ++ d)%string with ((a ++ b ++ c) ++ d)%string
      by (rewrite !str_app_assoc; reflexivity).
    apply prefix_app. }
  unfold _parse_row.
  destruct (bind (cleaned row) _) as [r | [| msg | msg | msg]]; intros H;
    try discriminate H; injection H as <-.
  - exact (Hp "Row " (Str.of_nat n) ": " "Unexpected error - division by zero").
  - exact (Hp "Row " (Str.of_nat n) ": " msg).
  - exact (Hp "Row " (Str.of_nat n) ": " ("Unexpected error - " ++ msg)%string).
  - exact (Hp "Row " (Str.of_nat n) ": " ("Unexpected error - " ++ msg)%string).
Qed.

Lemma outcomes_come_from_rows : forall (l : list Row) (idx k : nat),
  (forall e, In e (rejected (firstn k (parse_all idx l))) ->
     exists i row, nth_error l i = Some row /\ _parse_row row (idx + i) = inr e)
  /\ (forall r, In r (accepted (firstn k (parse_all idx l))) ->
        exists i row, nth_error l i = Some row /\ _parse_row row (idx + i) = inl r).
Proof.
  induction l as [|row l IH]; intros idx k.
  - destruct k; split; intros x [].
  - destruct k as [|k]; [split; intros x []|].
    destruct (IH (S idx) k) as [IHe IHr].
    cbn [parse_all firstn].
    split; intros x Hin.
    + destruct (_parse_row row idx) as [r | e] eqn:E; cbn [rejected] in Hin.
      * destruct (IHe x Hin) as (i & row' & Hn & Hp).
        exists (S i), row'. split; [exact Hn|]. rewrite Nat.add_succ_r. exact Hp.
      * destruct Hin as [<- | Hin].
        -- exists 0, row. split; [reflexivity|]. rewrite Nat.add_0_r. exact E.
        -- destruct (IHe x Hin) as (i & row' & Hn & Hp).
           exists (S i), row'. split; [exact Hn|]. rewrite Nat.add_succ_r. exact Hp.
    + destruct (_parse_row row idx) as [r | e] eqn:E; cbn [accepted] in Hin.
      * destruct Hin as [<- | Hin].
        -- exists 0, row. split; [reflexivity|]. rewrite Nat.add_0_r. exact E.
        -- destruct (IHr x Hin) as (i & row' & Hn & Hp).
           exists (S i), row'. split; [exact Hn|]. rewrite Nat.add_succ_r. exact Hp.
      * destruct (IHr x Hin) as (i & row' & Hn & Hp).
        exists (S i), row'. split; [exact Hn|]. rewrite Nat.add_succ_r. exact Hp.
Qed.

(** X9.  When fewer rows parse than [max_connections] allows, nothing is cut
    off: [load_connections] returns the recipient of every row that parses
    and the error of every row that does not, in order.  With a maximum of
    zero or less it reads no row at all. *)
Theorem load_connections_without_cutoff (self : t) (csv : CsvFile) :
  has_required_headers (fieldnames csv) = true ->
  ((Z.of_nat (List.length (accepted (parse_all 1 (rows csv))))
    < max_connections self)%Z ->
   load_connections self (Some csv)
   = Ret (accepted (parse_all 1 (rows csv)), rejected (parse_all 1 (rows csv))))
  /\ ((max_connections self <= 0)%Z ->
      load_connections self (Some csv) = Ret ([], [])).
Proof.
  intros Hh. unfold load_connections. rewrite Hh. cbn [negb].
  destruct (load_rows_spec self (rows csv) 1 [] []) as (k & Hk & E & Hlt & Hend).
  rewrite E. cbn [app] in *. split.
  - intros Hroom. destruct Hend as [-> | Hfull].
    + rewrite <- (parse_all_length (rows csv) 1), firstn_all. reflexivity.
    + pose proof (accepted_firstn_le (parse_all 1 (rows csv)) k). lia.
  - intros Hmax. destruct k as [|k]; [reflexivity|].
    specialize (Hlt 0 ltac:(lia)). cbn [firstn accepted List.length] in Hlt. lia.
Qed.

Lemma load_connections_without_cutoff_witness :
  load_connections (mk "data/connections.csv" 10)
    (Some (mkCsv Demo.header [Demo.john_row; Demo.nameless_row; Demo.jane_row]))
  = Ret (accepted (parse_all 1 [Demo.john_row; Demo.nameless_row; Demo.jane_row]),
         rejected (parse_all 1 [Demo.john_row; Demo.nameless_row; Demo.jane_row]))
  /\ load_connections (mk "data/connections.csv" 0)
       (Some (mkCsv Demo.header [Demo.john_row; Demo.jane_row]))
     = Ret ([], []).
Proof.
  split.
  - apply (load_connections_without_cutoff (mk "data/connections.csv" 10)
             (mkCsv Demo.header [Demo.john_row; Demo.nameless_row; Demo.jane_row]));
      [reflexivity | vm_compute; reflexivity].
  - apply (load_connections_without_cutoff (mk "data/connections.csv" 0)
             (mkCsv Demo.header [Demo.john_row; Demo.jane_row]));
      [reflexivity | simpl; lia].
Defined.

(** X10.  Whatever [load_connections] returns comes from the file: every
    recipient is what [_parse_row] made of some row, and every error
    message is the one of some row and starts with ["Row i: "], [i] being
    the position of that row counted from 1. *)
Theorem load_connections_outcomes_traceable (self : t) (csv : CsvFile)
    (recipients : list Recipient.t) (errors : list string) :
  load_connections self (Some csv) = Ret (recipients, errors) ->
  (forall r, In r recipients ->
     exists i row, nth_error (rows csv) i = Some row /\ _parse_row row (S i) = inl r)
  /\ (forall e, In e errors ->
        exists i row,
          nth_error (rows csv) i = Some row
          /\ _parse_row row (S i) = inr e
          /\ prefix ("Row " ++ Str.of_nat (S i) ++ ": ")%string e = true).
Proof.
  unfold load_connections.
  destruct (negb (has_required_headers (fieldnames csv))); [discriminate|].
  destruct (load_rows_spec self (rows csv) 1 [] []) as (k & _ & E & _ & _).
  rewrite E. cbn [app]. intros H. injection H as <- <-.
  destruct (outcomes_come_from_rows (rows csv) 1 k) as [He Hr].
  split.
  - intros r Hin. apply Hr, Hin.
  - intros e Hin. destruct (He e Hin) as (i & row & Hn & Hp).
    exists i, row. cbn [Nat.add] in Hp. repeat split; try assumption.
    apply (_parse_row_error_prefix row), Hp.
Qed.

Lemma load_connections_outcomes_traceable_witness :
  exists i row,
    nth_error [Demo.john_row; Demo.bad_url_row] i = Some row
    /\ _parse_row row (S i) = inr "Row 2: Invalid LinkedIn profile URL: invalid-url".
Proof.
  destruct (load_connections_outcomes_traceable (mk "data/connections.csv" 10)
              (mkCsv Demo.header [Demo.john_row; Demo.bad_url_row])
              [Demo.plain] ["Row 2: Invalid LinkedIn profile URL: invalid-url"])
    as (_ & He).
  - reflexivity.
  - destruct (He "Row 2: Invalid LinkedIn profile URL: invalid-url")
      as (i & row & Hn & Hp & _).
    + left. reflexivity.
    + exists i, row. split; assumption.
Defined.

End RecipientSourceMore.

(** * Further properties: template engine *)

Section TemplateEngineMore.

Import PlaceholderReplacer.
Local Open Scope string_scope.
Local Open Scope list_scope.
Local Open Scope nat_scope.

Local Arguments ascii_dec : simpl never.

Lemma no_lbrace_append (a b : string) :
  no_lbrace (a ++ b)%string = no_lbrace a && no_lbrace b.
Proof.
  unfold no_lbrace. induction a as [|c a IH]; simpl; [reflexivity|].
  rewrite IH, andb_assoc. reflexivity.
Qed.

Lemma str_app_nil (s : string) : (s ++ "")%string = s.
Proof.
  induction s as [|c s IH]; simpl; [reflexivity | rewrite IH; reflexivity].
Qed.

Lemma replace_no_lbrace (n v text : string) :
  no_lbrace text = true -> Str.replace (pattern n) v text = text.
Proof.
  intros H. unfold Str.replace. change (Str.is_empty (pattern n)) with false.
  cbv iota. rewrite <- (str_app_nil text) at 1.
  rewrite replace_from_plain by exact H. apply str_app_nil.
Qed.

Lemma findall_no_lbrace (text : string) :
  no_lbrace text = true -> Str.findall_placeholders text = [].
Proof.
  intros H. unfold Str.findall_placeholders. rewrite <- (str_app_nil text).
  rewrite findall_plain by exact H. reflexivity.
Qed.

(** X11.  A template without opening brace comes back unchanged, for any
    recipient, and validation finds nothing in it. *)
Theorem plain_text_untouched (template : string) (r : Recipient.t) :
  no_lbrace template = true ->
  replace_placeholders template r = template
  /\ validate_placeholders template = [].
Proof.
  intros H. split.
  - unfold replace_placeholders, replacements. cbn [fold_left fst snd].
    rewrite !(replace_no_lbrace _ _ template H). reflexivity.
  - unfold validate_placeholders. rewrite findall_no_lbrace by exact H. reflexivity.
Qed.

Lemma plain_text_untouched_witness :
  replace_placeholders "Hello there, nice to meet you}" Demo.injected
  = "Hello there, nice to meet you}".
Proof.
  apply (plain_text_untouched "Hello there, nice to meet you}" Demo.injected).
  reflexivity.
Defined.

Lemma lookup_no_lbrace : forall (reps : list (string * string)) (name v : string),
  forallb (fun pv => no_lbrace (snd pv)) reps = true ->
  lookup name reps = Some v -> no_lbrace v = true.
Proof.
  induction reps as [|[n w] reps IH]; intros name v Hv Hl; [discriminate Hl|].
  cbn [forallb snd] in Hv. apply andb_prop in Hv. destruct Hv as [Hw Hv].
  cbn [lookup] in Hl. destruct (String.eqb name n).
  - injection Hl as <-. exact Hw.
  - eapply IH; eassumption.
Qed.

Lemma lookup_supported (r : Recipient.t) (name : string) :
  supported name = true -> lookup name (replacements r) <> None.
Proof.
  unfold supported, SUPPORTED_PLACEHOLDERS, replacements. cbn [existsb lookup].
  intros H.
  repeat (destruct (String.eqb name _); [discriminate|]).
  discriminate H.
Qed.

(** X12.  If validation finds no invalid placeholder in a well-formed
    template, the message produced for a recipient whose values hold no
    opening brace holds no opening brace either: no placeholder is left. *)
Theorem valid_template_fully_filled (tks : list token) (r : Recipient.t) :
  forallb token_ok tks = true ->
  forallb (fun pv => no_lbrace (snd pv)) (replacements r) = true ->
  validate_placeholders (render tks) = [] ->
  no_lbrace (replace_placeholders (render tks) r) = true
  /\ Str.findall_placeholders (replace_placeholders (render tks) r) = [].
Proof.
  intros Hok Hv Hvalid.
  assert (Hfill : replace_placeholders (render tks) r = fill (replacements r) tks)
    by (apply sequential_fill; [apply names_are_words | exact Hv | exact Hok]).
  unfold validate_placeholders in Hvalid. rewrite findall_render in Hvalid by exact Hok.
  assert (Hno : no_lbrace (fill (replacements r) tks) = true).
  { clear Hfill. induction tks as [|[text | m] tks IH]; [reflexivity | |];
      cbn [forallb token_ok holes filter fill fill_token] in *;
      apply andb_prop in Hok; destruct Hok as [H1 Hok];
      rewrite no_lbrace_append.
    - rewrite H1. apply IH; assumption.
    - destruct (supported m) eqn:Es; cbn [negb] in Hvalid; [|discriminate Hvalid].
      destruct (lookup m (replacements r)) as [v|] eqn:El;
        [|exfalso; eapply lookup_supported; eassumption].
      rewrite (lookup_no_lbrace _ _ _ Hv El). apply IH; assumption. }
  rewrite Hfill. split; [exact Hno | apply findall_no_lbrace, Hno].
Qed.

Lemma valid_template_fully_filled_witness :
  no_lbrace
    (replace_placeholders "Hi {first_name}, how is {company}?" Demo.plain) = true.
Proof.
  apply (valid_template_fully_filled
           [Lit "Hi "; Hole "first_name"; Lit ", how is "; Hole "company"; Lit "?"]
           Demo.plain); reflexivity.
Defined.

Lemma fill_tokens_ok : forall (reps : list (string * string)) (tks : list token),
  forallb (fun pv => no_lbrace (snd pv)) reps = true ->
  forallb token_ok tks = true ->
  forallb token_ok (TemplateSpec.fill_tokens reps tks) = true.
Proof.
  unfold TemplateSpec.fill_tokens.
  induction reps as [|[n v] reps IH]; intros tks Hv Hok; [exact Hok|].
  cbn [forallb snd] in Hv. apply andb_prop in Hv. destruct Hv as [Hv Hvs].
  cbn [fold_left fst snd]. apply IH; [exact Hvs | apply fill_one_ok; assumption].
Qed.

Lemma replace_fill_tokens : forall (reps : list (string * string)) (tks : list token),
  forallb (fun pv => all_chars Str.is_word_char (fst pv)) reps = true ->
  forallb (fun pv => no_lbrace (snd pv)) reps = true ->
  forallb token_ok tks = true ->
  fold_left (fun message pv => Str.replace (pattern (fst pv)) (snd pv) message)
    reps (render tks)
  = render (TemplateSpec.fill_tokens reps tks).
Proof.
  unfold TemplateSpec.fill_tokens.
  induction reps as [|[n v] reps IH]; intros tks Hn Hv Hok; [reflexivity|].
  cbn [forallb fst snd] in Hn, Hv.
  apply andb_prop in Hn. destruct Hn as [Hn Hns].
  apply andb_prop in Hv. destruct Hv as [Hv Hvs].
  cbn [fold_left fst snd]. rewrite replace_render by assumption.
  apply IH; [exact Hns | exact Hvs | apply fill_one_ok; assumption].
Qed.

Lemma fill_tokens_twice (r : Recipient.t) (tks : list token) :
  TemplateSpec.fill_tokens (replacements r)
    (TemplateSpec.fill_tokens (replacements r) tks)
  = TemplateSpec.fill_tokens (replacements r) tks.
Proof.
  unfold TemplateSpec.fill_tokens, replacements. cbn [fold_left fst snd].
  rewrite !map_map. apply map_ext. intros [text | m]; [reflexivity|].
  cbn [fill_one].
  destruct (String.eqb m "first_name") eqn:E1; [reflexivity|]. cbn [fill_one].
  destruct (String.eqb m "last_name") eqn:E2; [reflexivity|]. cbn [fill_one].
  destruct (String.eqb m "company") eqn:E3; [reflexivity|]. cbn [fill_one].
  destruct (String.eqb m "position") eqn:E4; [reflexivity|]. cbn [fill_one].
  destruct (String.eqb m "location") eqn:E5; [reflexivity|].
  repeat (cbn [fill_one];
          first [rewrite E1 | rewrite E2 | rewrite E3 | rewrite E4 | rewrite E5]).
  reflexivity.
Qed.

(** X13.  On a well-formed template and values without opening brace,
    filling is idempotent: filling the produced message once more for the
    same recipient changes nothing. *)
Theorem replace_placeholders_idempotent (tks : list token) (r : Recipient.t) :
  forallb token_ok tks = true ->
  forallb (fun pv => no_lbrace (snd pv)) (replacements r) = true ->
  replace_placeholders (replace_placeholders (render tks) r) r
  = replace_placeholders (render tks) r.
Proof.
  intros Hok Hv. unfold replace_placeholders.
  rewrite (replace_fill_tokens (replacements r) tks)
    by (try assumption; apply names_are_words).
  rewrite replace_fill_tokens
    by (try assumption; try apply names_are_words; apply fill_tokens_ok; assumption).
  rewrite fill_tokens_twice. reflexivity.
Qed.

Lemma replace_placeholders_idempotent_witness :
  replace_placeholders
    (replace_placeholders "Hi {first_name}, {nickname} at {company}}." Demo.plain)
    Demo.plain
  = replace_placeholders "Hi {first_name}, {nickname} at {company}}." Demo.plain.
Proof.
  apply (replace_placeholders_idempotent Demo.greeting Demo.plain); reflexivity.
Defined.

End TemplateEngineMore.

(** * Further properties: the send loop *)

Section SendLoopMore.

Import OutreachOrchestrator.
Local Open Scope Z_scope.

Variable config : Config.
Variable world : nat -> MessageSender.World.

Lemma attempted_app (a b : list event) :
  attempted (a ++ b) = (attempted a ++ attempted b)%list.
Proof.
  induction a as [|[i r s | i] a IH]; simpl; [reflexivity | rewrite IH | exact IH];
    reflexivity.
Qed.

Lemma outcomes_app (a b : list event) :
  LoopSpec.outcomes (a ++ b) = (LoopSpec.outcomes a ++ LoopSpec.outcomes b)%list.
Proof.
  induction a as [|[i r s | i] a IH]; simpl; [reflexivity | rewrite IH | exact IH];
    reflexivity.
Qed.

Lemma delays_app (a b : list event) :
  LoopSpec.delays (a ++ b) = (LoopSpec.delays a ++ LoopSpec.delays b)%list.
Proof.
  induction a as [|[i r s | i] a IH]; simpl; [reflexivity | exact IH | rewrite IH];
    reflexivity.
Qed.

(** The log entry written by one pass through the loop body. *)
Lemma process_log (total idx : nat) (r : Recipient.t) (self : t) :
  exists entry : MessageLog,
    logs (process config world total idx r self) = (logs self ++ [entry])%list
    /\ recipient_name entry = Recipient.full_name r
    /\ log_profile_url entry = Recipient.profile_url r
    /\ log_status entry
       = (if succeeds config (world idx) r self then sent else failed)
    /\ message_content entry
       = Some (MessageSender.apply_template (message_templates config) (world idx) r)
    /\ (error_message entry = None <-> succeeds config (world idx) r self = true).
Proof.
  unfold succeeds, process, MessageSender.send_message.
  destruct (MessageSender.navigated (world idx)),
           (MessageSender.clicked (world idx)),
           (MessageSender.typed (world idx)),
           (idx <? total)%nat; simpl;
    eexists; (split; [reflexivity|]); simpl;
    repeat split; try reflexivity; intros H; discriminate H.
Qed.

Lemma breaker_stops (total idx : nat) (rs : list Recipient.t) (self : t) :
  _check_circuit_breaker config self = true ->
  send_loop config world total idx rs self = self.
Proof.
  intros H. destruct rs as [|r rs]; simpl; [reflexivity|]. rewrite H.
  destruct (session_limit config <=? messages_sent self); reflexivity.
Qed.

(** X14.  Once the breaker test answers true the loop does nothing more:
    it leaves the state, log and trace included, as it is, so a recipient
    sequence extended at the end gives the same run. *)
Theorem open_breaker_stops_sending :
  (forall total idx rs self,
     _check_circuit_breaker config self = true ->
     send_loop config world total idx rs self = self)
  /\ (forall total idx pre post self,
        _check_circuit_breaker config (send_loop config world total idx pre self)
        = true ->
        send_loop config world total idx (pre ++ post)%list self
        = send_loop config world total idx pre self).
Proof.
  split; [intros; apply breaker_stops; assumption|].
  intros total idx pre. revert idx.
  induction pre as [|r pre IH]; intros idx post self H; simpl in *.
  - apply breaker_stops, H.
  - destruct (session_limit config <=? messages_sent self); [reflexivity|].
    destruct (_check_circuit_breaker config self); [reflexivity|].
    apply IH, H.
Qed.

(** X15.  With the breaker enabled the failure streak never passes the
    threshold: after the loop the counter is at most
    [max_consecutive_failures] (or what it was before, or 0, if that is
    more). *)
Theorem failure_streak_bounded (total idx : nat) (rs : list Recipient.t) (self : t) :
  enable_circuit_breaker config = true ->
  consecutive_failures (send_loop config world total idx rs self)
  <= Z.max (Z.max 0 (max_consecutive_failures config)) (consecutive_failures self).
Proof.
  intros Hen.
  set (bound := Z.max (Z.max 0 (max_consecutive_failures config))
                  (consecutive_failures self)).
  assert (Hinv : forall rs idx st,
            consecutive_failures st <= bound ->
            consecutive_failures (send_loop config world total idx rs st) <= bound).
  { clear rs idx. induction rs as [|r rs IH]; intros idx st Hst; simpl; [exact Hst|].
    destruct (session_limit config <=? messages_sent st); [exact Hst|].
    unfold _check_circuit_breaker. rewrite Hen. cbn [negb].
    destruct (Z.leb_spec (max_consecutive_failures config) (consecutive_failures st));
      [exact Hst|].
    apply IH. rewrite process_cf.
    destruct (succeeds config (world idx) r st); unfold bound; lia. }
  apply Hinv. unfold bound. lia.
Qed.

(** *** The shape of a run *)

Lemma tally_app (s : status) (a b : list MessageLog) :
  OutreachLogger.tally s (a ++ b)
  = (OutreachLogger.tally s a + OutreachLogger.tally s b)%nat.
Proof.
  unfold OutreachLogger.tally. rewrite filter_app, length_app. reflexivity.
Qed.

Lemma send_loop_shape (total : nat) : forall (rs : list Recipient.t) (idx : nat) (self : t),
  exists (k : nat) (news : list (Recipient.t * bool)) (entries : list MessageLog),
    (k <= List.length rs)%nat
    /\ map fst news = firstn k rs
    /\ LoopSpec.outcomes (trace (send_loop config world total idx rs self))
       = (LoopSpec.outcomes (trace self) ++ news)%list
    /\ attempted (trace (send_loop config world total idx rs self))
       = (attempted (trace self) ++ seq idx k)%list
    /\ logs (send_loop config world total idx rs self) = (logs self ++ entries)%list
    /\ map LoopSpec.name_and_status entries = map LoopSpec.shown news
    /\ Forall (fun l => message_content l <> None
                        /\ (error_message l = None <-> log_status l = sent)) entries
    /\ messages_sent (send_loop config world total idx rs self)
       = messages_sent self + Z.of_nat (List.length (filter snd news)).
Proof.
  assert (Hstop : forall (rs : list Recipient.t) (idx : nat) (self : t),
    exists (k : nat) (news : list (Recipient.t * bool)) (entries : list MessageLog),
      (k <= List.length rs)%nat
      /\ map fst news = firstn k rs
      /\ LoopSpec.outcomes (trace self) = (LoopSpec.outcomes (trace self) ++ news)%list
      /\ attempted (trace self) = (attempted (trace self) ++ seq idx k)%list
      /\ logs self = (logs self ++ entries)%list
      /\ map LoopSpec.name_and_status entries = map LoopSpec.shown news
      /\ Forall (fun l => message_content l <> None
                          /\ (error_message l = None <-> log_status l = sent)) entries
      /\ messages_sent self
         = messages_sent self + Z.of_nat (List.length (filter snd news))).
  { intros rs idx self. exists 0%nat, [], []. simpl. rewrite !app_nil_r.
    repeat split; try reflexivity; try lia; constructor. }
  induction rs as [|r rs IH]; intros idx self; [apply Hstop|].
  cbn [send_loop].
  destruct (session_limit config <=? messages_sent self); [apply Hstop|].
  destruct (_check_circuit_breaker config self); [apply Hstop|].
  destruct (IH (S idx) (process config world total idx r self))
    as (k & news & entries & Hk & Hfst & Hout & Hatt & Hlogs & Hshown & Hall & Hsent).
  destruct (process_log total idx r self)
    as (entry & El & En & _ & Es & Em & Ee).
  set (s := succeeds config (world idx) r self) in *.
  rewrite process_trace in Hout, Hatt. fold s in Hout, Hatt.
  rewrite process_sent in Hsent. fold s in Hsent.
  rewrite El in Hlogs.
  exists (S k), ((r, s) :: news), (entry :: entries).
  split; [simpl; lia|]. split; [simpl; rewrite Hfst; reflexivity|].
  split; [|split; [|split; [|split; [|split]]]].
  - rewrite Hout, outcomes_app. simpl.
    destruct (s && (idx <? total)%nat); simpl; rewrite <- app_assoc; reflexivity.
  - rewrite Hatt, attempted_app. simpl.
    destruct (s && (idx <? total)%nat); simpl; rewrite <- app_assoc; reflexivity.
  - rewrite Hlogs, <- app_assoc. reflexivity.
  - simpl. rewrite Hshown. unfold LoopSpec.name_and_status at 1, LoopSpec.shown at 2.
    simpl. rewrite En, Es. reflexivity.
  - constructor; [|exact Hall]. split; [rewrite Em; discriminate|].
    rewrite Ee, Es. destruct s; split; intros H; try reflexivity; discriminate H.
  - rewrite Hsent. simpl. destruct s; simpl; lia.
Qed.

Lemma has_status_spec (s : status) (l : MessageLog) :
  OutreachLogger.has_status s l
  = match s, log_status l with
    | sent, sent | failed, failed | skipped, skipped => true
    | _, _ => false
    end.
Proof.
  unfold OutreachLogger.has_status. destruct s, (log_status l); reflexivity.
Qed.

Lemma tallies_of_shown : forall (entries : list MessageLog)
    (news : list (Recipient.t * bool)),
  map LoopSpec.name_and_status entries = map LoopSpec.shown news ->
  OutreachLogger.tally sent entries = List.length (filter snd news)
  /\ OutreachLogger.tally failed entries
     = List.length (filter (fun a => negb (snd a)) news)
  /\ OutreachLogger.tally skipped entries = 0%nat
  /\ List.length entries = List.length news.
Proof.
  induction entries as [|l entries IH]; intros [|[r ok] news] H;
    try discriminate H; [repeat split|].
  cbn [map] in H. unfold LoopSpec.name_and_status at 1, LoopSpec.shown at 1 in H.
  cbn [fst snd] in H. injection H as _ Hs Hrest.
  destruct (IH news Hrest) as (H1 & H2 & H3 & H4).
  unfold OutreachLogger.tally in *. cbn [filter snd].
  rewrite !has_status_spec, Hs.
  destruct ok; cbn [negb List.length]; rewrite ?H1, ?H2, ?H3, ?H4;
    repeat split; reflexivity.
Qed.

(** X16.  The log mirrors the attempts: after [_send_messages] the log
    holds one entry per call of [send_message], in the same order, naming
    that recipient, marked sent when the call succeeded and failed when it
    did not, always with the rendered message, and with an error text
    exactly when it failed. *)
Theorem log_mirrors_attempts (rs : list Recipient.t) :
  message_templates config <> [] ->
  exists final : t,
    _send_messages config world rs init = Ret final
    /\ map LoopSpec.name_and_status (logs final)
       = map LoopSpec.shown (LoopSpec.outcomes (trace final))
    /\ Forall (fun l => message_content l <> None
                        /\ (error_message l = None <-> log_status l = sent))
         (logs final).
Proof.
  intros Hne. unfold _send_messages.
  destruct (message_templates config); [contradiction|].
  eexists. split; [reflexivity|].
  change (mk (consecutive_failures init) 0 (logs init) (trace init)) with init.
  destruct (send_loop_shape (List.length rs) rs 1 init)
    as (k & news & entries & _ & _ & Hout & _ & Hlogs & Hshown & Hall & _).
  rewrite Hout, Hlogs. simpl. split; assumption.
Qed.

(** X17.  The loop works through a prefix of the recipient list without
    gaps: the calls of [send_message] are for positions 1, 2, ..., k and
    for the first [k] recipients in their order, for some
    [k <= len(recipients)]. *)
Theorem attempts_form_a_prefix (rs : list Recipient.t) :
  message_templates config <> [] ->
  exists (final : t) (k : nat),
    _send_messages config world rs init = Ret final
    /\ (k <= List.length rs)%nat
    /\ attempted (trace final) = seq 1 k
    /\ map fst (LoopSpec.outcomes (trace final)) = firstn k rs.
Proof.
  intros Hne. unfold _send_messages.
  destruct (message_templates config); [contradiction|].
  change (mk (consecutive_failures init) 0 (logs init) (trace init)) with init.
  destruct (send_loop_shape (List.length rs) rs 1 init)
    as (k & news & entries & Hk & Hfst & Hout & Hatt & _).
  eexists. exists k. split; [reflexivity|]. split; [exact Hk|].
  rewrite Hout, Hatt. simpl. split; [reflexivity | exact Hfst].
Qed.

(** X18.  The two counts of sent messages agree: after [_send_messages]
    the logger's [get_message_count] equals the messenger's
    [messages_sent], which is at most [session_limit] (or 0); sent and
    failed entries add up to the number of attempts, and the loop never
    writes a skipped entry. *)
Theorem tallies_agree (rs : list Recipient.t) :
  message_templates config <> [] ->
  exists final : t,
    _send_messages config world rs init = Ret final
    /\ Z.of_nat (OutreachLogger.get_message_count (logs final)) = messages_sent final
    /\ messages_sent final <= Z.max 0 (session_limit config)
    /\ (OutreachLogger.get_message_count (logs final)
        + OutreachLogger.get_failed_count (logs final))%nat
       = List.length (attempted (trace final))
    /\ List.length (logs final) = List.length (attempted (trace final))
    /\ OutreachLogger.get_skipped_count (logs final) = 0%nat.
Proof.
  intros Hne. unfold _send_messages.
  destruct (message_templates config); [contradiction|].
  change (mk (consecutive_failures init) 0 (logs init) (trace init)) with init.
  pose proof (send_loop_sent_le config world (List.length rs) rs 1 init) as Hle.
  destruct (send_loop_shape (List.length rs) rs 1 init)
    as (k & news & entries & Hk & Hfst & Hout & Hatt & Hlogs & Hshown & _ & Hsent).
  destruct (tallies_of_shown entries news Hshown) as (H1 & H2 & H3 & H4).
  assert (Hlen : List.length news = k).
  { rewrite <- (length_map fst), Hfst, length_firstn. lia. }
  assert (Hpart : (List.length (filter snd news)
                   + List.length (filter (fun a => negb (snd a)) news))%nat
                  = List.length news).
  { clear. induction news as [|[r ok] news IH]; [reflexivity|].
    destruct ok; simpl; lia. }
  eexists. split; [reflexivity|].
  unfold OutreachLogger.get_message_count, OutreachLogger.get_failed_count,
    OutreachLogger.get_skipped_count.
  rewrite Hlogs, Hatt, Hsent. simpl in *. rewrite length_seq.
  repeat split; try lia.
Qed.

(** *** Runs in which every attempt ends the same way *)

Lemma all_fail_fails idx r self :
  LoopSpec.all_fail world -> succeeds config (world idx) r self = false.
Proof.
  intros H. specialize (H idx). unfold succeeds, MessageSender.send_message.
  destruct (MessageSender.navigated (world idx)),
           (MessageSender.clicked (world idx)),
           (MessageSender.typed (world idx)); try reflexivity; discriminate H.
Qed.

Lemma run_all_succeed (total : nat) :
  all_succeed world ->
  (enable_circuit_breaker config = true -> 0 < max_consecutive_failures config) ->
  forall (rs : list Recipient.t) (idx : nat) (self : t),
    consecutive_failures self = 0 ->
    let k := Nat.min (List.length rs)
               (Z.to_nat (session_limit config - messages_sent self)) in
    let final := send_loop config world total idx rs self in
    attempted (trace final) = (attempted (trace self) ++ seq idx k)%list
    /\ LoopSpec.delays (trace final)
       = (LoopSpec.delays (trace self)
          ++ filter (fun i => (i <? total)%nat) (seq idx k))%list
    /\ messages_sent final = messages_sent self + Z.of_nat k
    /\ consecutive_failures final = 0.
Proof.
  intros Hall Hpos. induction rs as [|r rs IH]; intros idx self Hz.
  - simpl. rewrite !app_nil_r. repeat split; lia.
  - cbn zeta. cbn [send_loop List.length].
    destruct (Z.leb_spec (session_limit config) (messages_sent self)) as [Hfull | Hroom].
    + replace (Z.to_nat (session_limit config - messages_sent self)) with 0%nat by lia.
      rewrite Nat.min_0_r. simpl. rewrite !app_nil_r. repeat split; lia.
    + rewrite (breaker_closed_at_zero config self Hpos Hz).
      rewrite process_success by (apply all_succeed_succeeds, Hall).
      replace (Z.to_nat (session_limit config - messages_sent self))
        with (S (Z.to_nat (session_limit config - (messages_sent self + 1)))) by lia.
      rewrite <- Nat.succ_min_distr.
      match goal with
      | |- context [send_loop _ _ _ _ _ ?st] =>
          destruct (IH (S idx) st eq_refl) as (Ha & Hd & Hs & Hc)
      end.
      cbn [messages_sent trace] in Ha, Hd, Hs.
      rewrite Ha, Hd, Hs, Hc. rewrite attempted_app, delays_app.
      cbn [seq filter]. destruct (idx <? total)%nat; simpl;
        rewrite <- ?app_assoc; simpl; repeat split; try reflexivity; lia.
Qed.

Lemma run_all_fail (total : nat) :
  LoopSpec.all_fail world ->
  forall (rs : list Recipient.t) (idx : nat) (self : t),
    messages_sent self < session_limit config ->
    let k := if enable_circuit_breaker config
             then Nat.min (List.length rs)
                    (Z.to_nat (max_consecutive_failures config
                               - consecutive_failures self))
             else List.length rs in
    let final := send_loop config world total idx rs self in
    attempted (trace final) = (attempted (trace self) ++ seq idx k)%list
    /\ LoopSpec.delays (trace final) = LoopSpec.delays (trace self)
    /\ messages_sent final = messages_sent self
    /\ consecutive_failures final = consecutive_failures self + Z.of_nat k.
Proof.
  intros Hall. induction rs as [|r rs IH]; intros idx self Hroom.
  - simpl. destruct (enable_circuit_breaker config); simpl;
      rewrite !app_nil_r; repeat split; lia.
  - cbn zeta. cbn [send_loop List.length].
    destruct (Z.leb_spec (session_limit config) (messages_sent self)); [lia|].
    assert (Hstep :
      let st := process config world total idx r self in
      messages_sent st = messages_sent self
      /\ consecutive_failures st = consecutive_failures self + 1
      /\ attempted (trace st) = (attempted (trace self) ++ [idx])%list
      /\ LoopSpec.delays (trace st) = LoopSpec.delays (trace self)).
    { cbn zeta. rewrite process_sent, process_cf, process_trace.
      rewrite (all_fail_fails idx r self Hall). rewrite attempted_app, delays_app.
      simpl. rewrite app_nil_r. repeat split; reflexivity. }
    destruct Hstep as (Hs & Hc & Ha & Hd).
    unfold _check_circuit_breaker.
    destruct (enable_circuit_breaker config) eqn:Hen; cbn [negb].
    + destruct (Z.leb_spec (max_consecutive_failures config) (consecutive_failures self))
        as [Hopen | Hclosed].
      * replace (Z.to_nat (max_consecutive_failures config - consecutive_failures self))
          with 0%nat by lia.
        rewrite Nat.min_0_r. simpl. rewrite app_nil_r. repeat split; lia.
      * replace (Z.to_nat (max_consecutive_failures config - consecutive_failures self))
          with (S (Z.to_nat (max_consecutive_failures config
                             - (consecutive_failures self + 1)))) by lia.
        rewrite <- Nat.succ_min_distr.
        destruct (IH (S idx) (process config world total idx r self))
          as (Ha' & Hd' & Hs' & Hc'); [lia|].
        rewrite ?Hen in Ha', Hc'. rewrite Hc in Ha', Hc'.
        rewrite Ha', Hd', Hs', Hc', Ha, Hd, Hs. cbn [seq].
        rewrite <- app_assoc. simpl. repeat split; try reflexivity; lia.
    + destruct (IH (S idx) (process config world total idx r self))
        as (Ha' & Hd' & Hs' & Hc'); [lia|].
      rewrite ?Hen in Ha', Hc'.
      rewrite Ha', Hd', Hs', Hc', Ha, Hd, Hs, Hc. cbn [seq].
      rewrite <- app_assoc. simpl. repeat split; try reflexivity; lia.
Qed.

(** X19.  When every attempt succeeds and the breaker is closed at the
    start, [_send_messages] attempts exactly the first
    [min(len(recipients), session_limit)] recipients, sends to all of them,
    waits after each of them except the one at the last position of the
    list, and ends with a failure streak of 0. *)
Theorem all_succeeding_run (rs : list Recipient.t) :
  message_templates config <> [] ->
  all_succeed world ->
  (enable_circuit_breaker config = true -> 0 < max_consecutive_failures config) ->
  exists final : t,
    _send_messages config world rs init = Ret final
    /\ let k := Nat.min (List.length rs) (Z.to_nat (session_limit config)) in
       attempted (trace final) = seq 1 k
       /\ LoopSpec.delays (trace final)
          = filter (fun i => (i <? List.length rs)%nat) (seq 1 k)
       /\ messages_sent final = Z.of_nat k
       /\ consecutive_failures final = 0.
Proof.
  intros Hne Hall Hpos. unfold _send_messages.
  destruct (message_templates config); [contradiction|].
  change (mk (consecutive_failures init) 0 (logs init) (trace init)) with init.
  eexists. split; [reflexivity|].
  pose proof (run_all_succeed (List.length rs) Hall Hpos rs 1 init eq_refl) as H.
  cbn zeta in H. cbn [messages_sent trace init attempted LoopSpec.delays app] in H.
  rewrite Z.sub_0_r, Z.add_0_l in H. exact H.
Qed.

(** X20.  When every attempt fails and the session limit is positive,
    [_send_messages] never waits and never sends; with the breaker enabled
    it stops after [max_consecutive_failures] attempts (after none when
    that is zero or less), with the breaker disabled it attempts every
    recipient. *)
Theorem all_failing_run (rs : list Recipient.t) :
  message_templates config <> [] ->
  LoopSpec.all_fail world ->
  0 < session_limit config ->
  exists final : t,
    _send_messages config world rs init = Ret final
    /\ let k := if enable_circuit_breaker config
                then Nat.min (List.length rs)
                       (Z.to_nat (max_consecutive_failures config))
                else List.length rs in
       attempted (trace final) = seq 1 k
       /\ LoopSpec.delays (trace final) = []
       /\ messages_sent final = 0
       /\ consecutive_failures final = Z.of_nat k.
Proof.
  intros Hne Hall Hlimit. unfold _send_messages.
  destruct (message_templates config); [contradiction|].
  change (mk (consecutive_failures init) 0 (logs init) (trace init)) with init.
  eexists. split; [reflexivity|].
  pose proof (run_all_fail (List.length rs) Hall rs 1 init Hlimit) as H.
  cbn zeta in H.
  cbn [messages_sent consecutive_failures trace init attempted LoopSpec.delays app] in H.
  rewrite Z.sub_0_r, Z.add_0_l in H. exact H.
Qed.

(** *** What is written in the log *)

Lemma apply_template_in (templates : list string) (w : MessageSender.World)
    (r : Recipient.t) :
  templates <> [] ->
  exists template : string,
    In template templates
    /\ MessageSender.apply_template templates w r
       = PlaceholderReplacer.replace_placeholders template r.
Proof.
  intros Hne. unfold MessageSender.apply_template.
  exists (nth (MessageSender.choice w mod List.length templates)%nat templates
            EmptyString).
  split; [|reflexivity]. apply nth_In. apply Nat.mod_upper_bound.
  destruct templates; [contradiction | discriminate].
Qed.

Lemma send_loop_entries (total : nat) : forall (rs : list Recipient.t) (idx : nat)
    (self : t) (l : MessageLog),
  In l (logs (send_loop config world total idx rs self)) ->
  In l (logs self)
  \/ exists (r : Recipient.t) (i : nat),
       In r rs
       /\ recipient_name l = Recipient.full_name r
       /\ log_profile_url l = Recipient.profile_url r
       /\ message_content l
          = Some (MessageSender.apply_template (message_templates config) (world i) r).
Proof.
  induction rs as [|r rs IH]; intros idx self l Hin; cbn [send_loop] in Hin;
    [left; exact Hin|].
  destruct (session_limit config <=? messages_sent self); [left; exact Hin|].
  destruct (_check_circuit_breaker config self); [left; exact Hin|].
  apply IH in Hin. destruct Hin as [Hin | (r' & i & Hr & Hn & Hu & Hm)].
  - destruct (process_log total idx r self) as (entry & El & En & Eu & _ & Em & _).
    rewrite El in Hin. apply in_app_iff in Hin. destruct Hin as [Hin | [<- | []]].
    + left. exact Hin.
    + right. exists r, idx. repeat split; try assumption. left. reflexivity.
  - right. exists r', i. repeat split; try assumption. right. exact Hr.
Qed.

(** X30.  Every entry that [_send_messages] writes to the log is about one
    of the recipients it was given, carries that recipient's name and
    profile URL, and holds as message one of the configured templates
    filled in for that same recipient. *)
Theorem logged_messages_come_from_templates (rs : list Recipient.t) :
  message_templates config <> [] ->
  exists final : t,
    _send_messages config world rs init = Ret final
    /\ forall l : MessageLog, In l (logs final) ->
         exists (r : Recipient.t) (template : string),
           In r rs /\ In template (message_templates config)
           /\ recipient_name l = Recipient.full_name r
           /\ log_profile_url l = Recipient.profile_url r
           /\ message_content l
              = Some (PlaceholderReplacer.replace_placeholders template r).
Proof.
  intros Hne. unfold _send_messages.
  destruct (message_templates config) as [|tpl tpls] eqn:Et; [contradiction|].
  change (mk (consecutive_failures init) 0 (logs init) (trace init)) with init.
  eexists. split; [reflexivity|]. intros l Hin.
  apply send_loop_entries in Hin. destruct Hin as [[] | (r & i & Hr & Hn & Hu & Hm)].
  destruct (apply_template_in (message_templates config) (world i) r)
    as (template & Ht & Ea); [rewrite Et; discriminate|].
  exists r, template. rewrite <- Et. rewrite Ea in Hm. repeat split; assumption.
Qed.

End SendLoopMore.

Section SendLoopMoreWitnesses.

Import OutreachOrchestrator.
Local Open Scope Z_scope.

Lemma open_breaker_stops_sending_witness :
  send_loop Demo.config Demo.always_ok 2 1 [Demo.john; Demo.jane] (mk 3 0 [] [])
  = mk 3 0 [] [].
Proof.
  apply (open_breaker_stops_sending Demo.config Demo.always_ok). reflexivity.
Defined.

Lemma failure_streak_bounded_witness :
  consecutive_failures (send_loop Demo.config Samples.never_ok 5 1 Samples.five init)
  <= 3.
Proof.
  apply (failure_streak_bounded Demo.config Samples.never_ok 5 1 Samples.five init).
  reflexivity.
Defined.

Lemma log_mirrors_attempts_witness :
  exists final : t,
    _send_messages Demo.config Demo.second_fails [Demo.john; Demo.jane; Demo.plain] init
    = Ret final
    /\ map LoopSpec.name_and_status (logs final)
       = [("John Doe"%string, sent); ("Jane Smith"%string, failed);
          ("John Doe"%string, sent)].
Proof.
  destruct (log_mirrors_attempts Demo.config Demo.second_fails
              [Demo.john; Demo.jane; Demo.plain]) as (final & Hret & Hmap & _).
  - discriminate.
  - exists final. split; [exact Hret|]. rewrite Hmap.
    injection Hret as <-. reflexivity.
Defined.

Lemma attempts_form_a_prefix_witness :
  exists (final : t) (k : nat),
    _send_messages Demo.config Demo.always_ok Samples.five init = Ret final
    /\ attempted (trace final) = seq 1 k.
Proof.
  destruct (attempts_form_a_prefix Demo.config Demo.always_ok Samples.five)
    as (final & k & Hret & _ & Hatt & _).
  - discriminate.
  - exists final, k. split; assumption.
Defined.

Lemma tallies_agree_witness :
  exists final : t,
    _send_messages Demo.config Demo.second_fails Samples.five init = Ret final
    /\ Z.of_nat (OutreachLogger.get_message_count (logs final)) = messages_sent final
    /\ OutreachLogger.get_skipped_count (logs final) = 0%nat.
Proof.
  destruct (tallies_agree Demo.config Demo.second_fails Samples.five)
    as (final & Hret & Hsent & _ & _ & _ & Hskip).
  - discriminate.
  - exists final. repeat split; assumption.
Defined.

Lemma all_succeeding_run_witness :
  exists final : t,
    _send_messages Demo.config Demo.always_ok Samples.five init = Ret final
    /\ attempted (trace final) = [1; 2; 3]%nat
    /\ LoopSpec.delays (trace final) = [1; 2; 3]%nat.
Proof.
  destruct (all_succeeding_run Demo.config Demo.always_ok Samples.five)
    as (final & Hret & Hatt & Hdel & _).
  - discriminate.
  - intros i. repeat split.
  - intros _. simpl. lia.
  - exists final. split; [exact Hret|]. split; [exact Hatt | exact Hdel].
Defined.

Lemma all_failing_run_witness :
  exists final : t,
    _send_messages Demo.config Samples.never_ok Samples.five init = Ret final
    /\ attempted (trace final) = [1; 2; 3]%nat
    /\ LoopSpec.delays (trace final) = [].
Proof.
  destruct (all_failing_run Demo.config Samples.never_ok Samples.five)
    as (final & Hret & Hatt & Hdel & _).
  - discriminate.
  - intros i. reflexivity.
  - simpl. lia.
  - exists final. split; [exact Hret|]. split; [exact Hatt | exact Hdel].
Defined.

Lemma logged_messages_come_from_templates_witness :
  exists final : t,
    _send_messages Demo.config Demo.second_fails [Demo.john; Demo.jane] init = Ret final
    /\ forall l, In l (logs final) ->
         exists r template,
           In r [Demo.john; Demo.jane]
           /\ message_content l
              = Some (PlaceholderReplacer.replace_placeholders template r).
Proof.
  destruct (logged_messages_come_from_templates Demo.config Demo.second_fails
              [Demo.john; Demo.jane]) as (final & Hret & Hall).
  - discriminate.
  - exists final. split; [exact Hret|]. intros l Hin.
    destruct (Hall l Hin) as (r & template & Hr & _ & _ & _ & Hm).
    exists r, template. split; assumption.
Defined.

End SendLoopMoreWitnesses.

(** * Further properties: activity log and configuration *)

Section LogAndConfig.

Local Open Scope string_scope.
Local Open Scope list_scope.
Local Open Scope nat_scope.

Local Arguments ascii_dec : simpl never.

(** X21.  The three tallies of the logger partition the log: they add up
    to the number of entries; appending an entry raises the tally of its
    own status by one and leaves the other two as they were. *)
Theorem tallies_partition_log (logs : list MessageLog) (entry : MessageLog) :
  OutreachLogger.get_message_count logs + OutreachLogger.get_failed_count logs
    + OutreachLogger.get_skipped_count logs = List.length logs
  /\ OutreachLogger.tally (log_status entry) (logs ++ [entry])
     = S (OutreachLogger.tally (log_status entry) logs)
  /\ (forall s : status, s <> log_status entry ->
        OutreachLogger.tally s (logs ++ [entry]) = OutreachLogger.tally s logs).
Proof.
  unfold OutreachLogger.get_message_count, OutreachLogger.get_failed_count,
    OutreachLogger.get_skipped_count.
  split; [|split].
  - unfold OutreachLogger.tally.
    induction logs as [|l logs IH]; [reflexivity|]. cbn [filter List.length].
    rewrite !has_status_spec. destruct (log_status l); cbn [List.length]; lia.
  - rewrite tally_app. unfold OutreachLogger.tally at 2. cbn [filter].
    rewrite has_status_spec. destruct (log_status entry); cbn [List.length]; lia.
  - intros s Hne. rewrite tally_app. unfold OutreachLogger.tally at 2. cbn [filter].
    rewrite has_status_spec.
    destruct s, (log_status entry); cbn [List.length]; try lia; contradiction.
Qed.

Lemma tallies_partition_log_witness :
  OutreachLogger.get_skipped_count
    ([OutreachOrchestrator.log_message_sent Demo.john (Some "Hi")]
     ++ [OutreachLogger.log_message_skipped Demo.jane "Duplicate recipient"])
  = 1.
Proof.
  destruct (tallies_partition_log
              [OutreachOrchestrator.log_message_sent Demo.john (Some "Hi")]
              (OutreachLogger.log_message_skipped Demo.jane "Duplicate recipient"))
    as (_ & H & _).
  exact H.
Defined.

Lemma substring_length : forall (s : string) (n : nat),
  String.length (substring 0 n s) = Nat.min n (String.length s).
Proof.
  induction s as [|c s IH]; intros [|n]; simpl; try reflexivity.
  rewrite IH. reflexivity.
Qed.

Lemma substring_prefix : forall (s : string) (n : nat),
  prefix (substring 0 n s) s = true.
Proof.
  induction s as [|c s IH]; intros [|n]; simpl; try reflexivity.
  destruct (ascii_dec c c) as [_ | Hne]; [apply IH | contradiction].
Qed.

(** X22.  [MessageLog.to_dict] writes exactly the columns of the log file;
    the status it writes passes the status check and reads back as the
    entry's status; the message preview is empty exactly when there is no
    message, and otherwise it is the first 50 characters of the message (all
    of it when shorter) followed by three dots, also when nothing was cut. *)
Theorem message_log_to_dict (timestamp : string) (log : MessageLog) :
  map fst (MessageLogDict.to_dict timestamp log) = OutreachLogger.fieldnames
  /\ MessageLogDict.check_status (MessageLogDict.status_name (log_status log))
     = Ret (log_status log)
  /\ (MessageLogDict.message_preview (message_content log) = "" <->
      Str.or_default (message_content log) "" = "")
  /\ (forall s : string,
        message_content log = Some s -> Str.is_empty s = false ->
        MessageLogDict.message_preview (message_content log)
        = (substring 0 50 s ++ "...")%string
        /\ prefix (substring 0 50 s) s = true
        /\ String.length (MessageLogDict.message_preview (message_content log))
           = Nat.min 50 (String.length s) + 3).
Proof.
  split; [reflexivity|]. split; [destruct (log_status log); reflexivity|]. split.
  - destruct (message_content log) as [[|c s]|]; simpl; split; intros H;
      try reflexivity; discriminate H.
  - intros s -> Hne. unfold MessageLogDict.message_preview. rewrite Hne.
    split; [reflexivity|]. split; [apply substring_prefix|].
    rewrite str_app_length, substring_length. reflexivity.
Qed.

Lemma message_log_to_dict_witness :
  MessageLogDict.message_preview (Some "Hello John!") = "Hello John!...".
Proof.
  destruct (message_log_to_dict "2024-01-01T00:00:00"
              (OutreachOrchestrator.log_message_sent Demo.john (Some "Hello John!")))
    as (_ & _ & _ & H).
  destruct (H "Hello John!" eq_refl eq_refl) as (E & _). exact E.
Defined.

(** X23.  [Config(...)] succeeds exactly when the e-mail address holds an
    [@], the password and the template list are not empty, the daily limit
    is positive and [0 <= min_delay <= max_delay]; it then returns the
    values unchanged.  For such a configuration the throttler built from it
    gives a human delay within [[min_delay, max_delay]], and
    [_send_messages] never fails on an empty template list. *)
Theorem config_validation (raw : ConfigModel.t) :
  (forall c : ConfigModel.t,
     ConfigModel.new raw = Ret c <->
     c = raw
     /\ StrSpec.contains_char "@" (ConfigModel.linkedin_email raw) = true
     /\ ConfigModel.linkedin_password raw <> ""
     /\ ConfigModel.message_templates raw <> []
     /\ (0 < ConfigModel.daily_limit raw)%Z
     /\ (0 <= ConfigModel.min_delay raw <= ConfigModel.max_delay raw)%Z)
  /\ (forall c : ConfigModel.t,
        ConfigModel.new raw = Ret c ->
        (forall u : Q, Throttler.unit_draw u ->
           (inject_Z (ConfigModel.min_delay c)
              <= Throttler.human_delay (ConfigModel.throttler c) u
              <= inject_Z (ConfigModel.max_delay c))%Q)
        /\ (forall world rs self,
              exists final,
                OutreachOrchestrator._send_messages (ConfigModel.for_loop c) world rs self
                = Ret final)).
Proof.
  assert (Hiff : forall c : ConfigModel.t,
     ConfigModel.new raw = Ret c <->
     c = raw
     /\ StrSpec.contains_char "@" (ConfigModel.linkedin_email raw) = true
     /\ ConfigModel.linkedin_password raw <> ""
     /\ ConfigModel.message_templates raw <> []
     /\ (0 < ConfigModel.daily_limit raw)%Z
     /\ (0 <= ConfigModel.min_delay raw <= ConfigModel.max_delay raw)%Z).
  { intros c. unfold ConfigModel.new, ConfigModel.__post_init__.
    destruct (ConfigModel.linkedin_email raw) as [|a e] eqn:Ee.
    { split; [discriminate | intros (_ & H & _); discriminate H]. }
    cbn [Str.is_empty orb].
    destruct (StrSpec.contains_char "@" (String a e)) eqn:Eat; cbn [negb];
      [|split; [discriminate | intros (_ & H & _); discriminate H]].
    destruct (ConfigModel.linkedin_password raw) as [|b p] eqn:Ep; cbn [Str.is_empty];
      [split; [discriminate | intros (_ & _ & H & _); contradiction]|].
    destruct (ConfigModel.message_templates raw) as [|tpl tpls] eqn:Et;
      [split; [discriminate | intros (_ & _ & _ & H & _); contradiction]|].
    destruct (Z.leb_spec (ConfigModel.daily_limit raw) 0) as [Hd | Hd];
      [split; [discriminate | intros (_ & _ & _ & _ & H & _); lia]|].
    destruct (Z.ltb_spec (ConfigModel.min_delay raw) 0) as [Hl | Hl]; cbn [orb];
      [split; [discriminate | intros (_ & _ & _ & _ & _ & H); lia]|].
    destruct (Z.ltb_spec (ConfigModel.max_delay raw) (ConfigModel.min_delay raw))
      as [Hm | Hm];
      [split; [discriminate | intros (_ & _ & _ & _ & _ & H); lia]|].
    cbn [bind]. split.
    - intros H. injection H as <-. repeat split; try discriminate; lia.
    - intros (-> & _). reflexivity. }
  split; [exact Hiff|].
  intros c Hc. apply Hiff in Hc. destruct Hc as (-> & _ & _ & Ht & _ & Hmin & Hmax).
  split.
  - intros u Hu. unfold Throttler.human_delay. cbn [ConfigModel.throttler
      Throttler.min_delay Throttler.max_delay].
    apply uniform_between; [rewrite <- Zle_Qle; exact Hmax | exact Hu].
  - intros world rs self. unfold OutreachOrchestrator._send_messages.
    cbn [ConfigModel.for_loop message_templates].
    destruct (ConfigModel.message_templates raw); [contradiction|].
    eexists. reflexivity.
Qed.

Lemma config_validation_witness :
  ConfigModel.new Samples.settings = Ret Samples.settings
  /\ (30 <= Throttler.human_delay (ConfigModel.throttler Samples.settings) (1 # 2)
        <= 120)%Q.
Proof.
  destruct (config_validation Samples.settings) as (Hiff & Huse).
  assert (Hnew : ConfigModel.new Samples.settings = Ret Samples.settings).
  { apply Hiff. repeat split; try discriminate; try reflexivity. }
  split; [exact Hnew|].
  destruct (Huse Samples.settings Hnew) as (Hdelay & _).
  apply (Hdelay (1 # 2)). split; discriminate.
Defined.

End LogAndConfig.

(** * Further properties: authentication and the whole run *)

Section AuthAndRun.

Import LinkedInAuth.
Local Open Scope list_scope.
Local Open Scope nat_scope.

(** X24.  Starting from a fresh [LinkedInAuth], [authenticate] returns
    true exactly when the browser started and either a saved session was
    loaded and found valid or the login succeeded; afterwards
    [is_authenticated] is that same answer and [get_driver] raises exactly
    when it is false; a browser window exists unless the start failed
    before opening one. *)
Theorem authenticate_outcome (env : Env) :
  let ok := fst (authenticate env new) in
  let a := snd (authenticate env new) in
  (ok = true <->
   start_outcome env = Started
   /\ (session_loaded env && session_valid env || login_ok env) = true)
  /\ is_authenticated a = ok
  /\ (get_driver a = None <-> ok = false)
  /\ (driver a = false <-> start_outcome env = FailsWithoutDriver)
  /\ count DriverStarted (trace a) = (if driver a then 1 else 0)
  /\ count DriverQuit (trace a) = 0.
Proof.
  unfold authenticate, get_driver, is_authenticated.
  destruct env as [st loaded valid login save]. cbn [start_outcome session_loaded
    session_valid login_ok save_ok].
  destruct st, loaded, valid, login, save; cbn;
    intuition (try discriminate; try reflexivity).
Qed.

Lemma authenticate_outcome_witness :
  fst (authenticate Samples.fresh_login new) = true
  /\ get_driver (snd (authenticate Samples.broken_start new)) = None.
Proof.
  destruct (authenticate_outcome Samples.fresh_login) as ((_ & Hok) & _).
  destruct (authenticate_outcome Samples.broken_start) as (_ & _ & (_ & Hnone) & _).
  split; [apply Hok; split; reflexivity | apply Hnone; reflexivity].
Defined.

(** X25.  The credentials are submitted only when no valid saved session
    could be used, and the session is saved only after a login that
    succeeded: a run that resumes a saved session neither logs in nor
    rewrites the session file. *)
Theorem login_only_without_valid_session (env : Env) :
  let a := snd (authenticate env new) in
  (In LoginSubmitted (trace a) <->
   start_outcome env = Started /\ session_loaded env && session_valid env = false)
  /\ (In SessionSaved (trace a) <->
      In LoginSubmitted (trace a) /\ login_ok env = true /\ save_ok env = true).
Proof.
  unfold authenticate.
  destruct env as [st loaded valid login save]. cbn [start_outcome session_loaded
    session_valid login_ok save_ok].
  destruct st, loaded, valid, login, save; cbn;
    intuition (try discriminate; try reflexivity).
Qed.

Lemma login_only_without_valid_session_witness :
  In LoginSubmitted (trace (snd (authenticate Samples.fresh_login new)))
  /\ In SessionSaved (trace (snd (authenticate Samples.fresh_login new))).
Proof.
  destruct (login_only_without_valid_session Samples.fresh_login) as ((_ & Hl) & (_ & Hs)).
  assert (H : In LoginSubmitted (trace (snd (authenticate Samples.fresh_login new))))
    by (apply Hl; split; reflexivity).
  split; [exact H | apply Hs; repeat split; exact H].
Defined.

(** X26.  [close] quits the browser exactly when one exists, also when
    authentication had failed, and leaves the object unauthenticated, so
    that [get_driver] raises afterwards; without a browser it does
    nothing. *)
Theorem close_releases_driver (self : t) :
  is_authenticated (close self) = false
  /\ get_driver (close self) = None
  /\ count DriverQuit (trace (close self))
     = count DriverQuit (trace self) + (if driver self then 1 else 0)
  /\ count DriverStarted (trace (close self)) = count DriverStarted (trace self)
  /\ (driver self = false -> close self = self).
Proof.
  unfold close, get_driver, is_authenticated, count.
  destruct self as [d au tr]. cbn [driver _authenticated trace].
  destruct d; cbn [driver _authenticated trace negb andb].
  - rewrite !filter_app, !length_app. cbn. rewrite Nat.add_0_r.
    repeat split; try reflexivity. intros H; discriminate H.
  - rewrite andb_false_r, Nat.add_0_r. repeat split; reflexivity.
Qed.

Lemma close_releases_driver_witness :
  close new = new.
Proof.
  apply (close_releases_driver new). reflexivity.
Defined.

(** *** The whole run *)

Lemma authenticate_facts (env : Env) (ok : bool) (a : t) :
  authenticate env new = (ok, a) ->
  is_authenticated a = ok
  /\ count DriverStarted (trace a) = (if driver a then 1 else 0)
  /\ count DriverQuit (trace a) = 0.
Proof.
  unfold authenticate, is_authenticated.
  destruct env as [st loaded valid login save]. cbn [start_outcome session_loaded
    session_valid login_ok save_ok].
  destruct st, loaded, valid, login, save; cbn; intros H; injection H as <- <-;
    repeat split.
Qed.

Lemma close_facts (a : t) :
  is_authenticated (close a) = false
  /\ count DriverQuit (trace (close a))
     = count DriverQuit (trace a) + (if driver a then 1 else 0)
  /\ count DriverStarted (trace (close a)) = count DriverStarted (trace a).
Proof.
  unfold close, is_authenticated, count.
  destruct a as [d au tr]. cbn [driver _authenticated trace].
  destruct d; cbn [driver _authenticated trace andb].
  - rewrite !filter_app, !length_app. cbn. rewrite Nat.add_0_r. repeat split.
  - rewrite andb_false_r, Nat.add_0_r. repeat split.
Qed.



(** X27.  No browser is left open: whatever the outside world answers and
    on every way out of [run], if a [LinkedInAuth] was created then after
    [run] it is unauthenticated and its browser was quit as often as one
    was started (once if the start got as far as opening a window, also
    when authentication failed, and not at all otherwise). *)
Theorem run_releases_browser (dry_run : bool) (env : Workflow.Env) :
  match Workflow.auth (snd (Workflow.run dry_run env)) with
  | Some a =>
      is_authenticated a = false
      /\ count DriverQuit (trace a) = count DriverStarted (trace a)
      /\ (count DriverStarted (trace a) <= 1)
  | None => True
  end.
Proof.
  assert (Hclosed : forall ok a,
            Workflow._authenticate env = (ok, a) ->
            is_authenticated (close a) = false
            /\ count DriverQuit (trace (close a)) = count DriverStarted (trace (close a))
            /\ count DriverStarted (trace (close a)) <= 1).
  { intros ok a Ha. apply authenticate_facts in Ha. destruct Ha as (_ & Hs & Hq).
    destruct (close_facts a) as (Hc1 & Hc2 & Hc3).
    rewrite Hc2, Hc3, Hq, Hs. destruct (driver a); repeat split; auto. }
  unfold Workflow.run, Workflow.body.
  destruct (Workflow._load_configuration env) as [c|]; [|exact I].
  destruct (Workflow.files_writable env); cbn [negb]; [|exact I].
  destruct (Workflow._load_recipients c env) as [[rs errs] sample].
  destruct rs as [|r rs]; [exact I|].
  destruct dry_run; [exact I|].
  destruct (Workflow._authenticate env) as [ok a] eqn:Ea.
  destruct ok; cbn [negb];
    [destruct (Workflow._send_messages c env a (r :: rs) OutreachOrchestrator.init)|];
    cbn [snd Workflow._cleanup Workflow.auth]; eapply Hclosed; reflexivity.
Qed.

(** X28.  A dry run never creates a [LinkedInAuth], sends nothing, logs
    nothing and prints no summary; it returns true exactly when the
    configuration loads, the log file can be set up and at least one valid
    recipient is read. *)
Theorem dry_run_touches_nothing (env : Workflow.Env) :
  let outcome := fst (Workflow.run true env) in
  let self := snd (Workflow.run true env) in
  Workflow.auth self = None
  /\ Workflow.loop self = OutreachOrchestrator.init
  /\ Workflow.summary_printed self = false
  /\ (outcome = true <->
      exists c, Workflow._load_configuration env = Some c
                /\ Workflow.files_writable env = true
                /\ fst (fst (Workflow._load_recipients c env)) <> []).
Proof.
  unfold Workflow.run, Workflow.body.
  destruct (Workflow._load_configuration env) as [c|].
  - destruct (Workflow.files_writable env); cbn [negb].
    + destruct (Workflow._load_recipients c env) as [[rs errs] sample] eqn:El.
      destruct rs as [|r rs]; cbn; repeat split; try discriminate.
      * intros (c' & Hc & _ & Hne). injection Hc as <-. rewrite El in Hne.
        contradiction.
      * intros _. exists c. rewrite El. repeat split. discriminate.
    + cbn. repeat split; try discriminate.
      intros (c' & _ & H & _). discriminate H.
  - cbn. repeat split; try discriminate. intros (c' & H & _). discriminate H.
Qed.

Lemma dry_run_touches_nothing_witness :
  fst (Workflow.run true (Samples.env Samples.broken_start)) = true.
Proof.
  destruct (dry_run_touches_nothing (Samples.env Samples.broken_start))
    as (_ & _ & _ & (_ & H)).
  apply H. exists Samples.settings. repeat split. discriminate.
Defined.



End AuthAndRun.
